(** * nextpnr, iCE40 placement legality: ice40/arch_place.cc

    A shallow embedding of the four routines of [ice40/arch_place.cc]

      - [Arch::logicCellsCompatible]
      - [Arch::isBelLocationValid]
      - [Arch::scoreBelForCell]
      - [Arch::isValidBelForCell]

    together with the three pin-type classifiers, over an explicit
    read-only architecture context, followed by the properties of the
    placement specification that concern them. *)

From Stdlib Require Import ZArith Bool List Lia Permutation.
From stdpp Require Import base option list gmap strings.

Open Scope Z_scope.

(** ** Outcomes

    Every routine either returns, or leaves through a failed
    [NPNR_ASSERT] (which throws [assertion_failure]), or through the
    [std::out_of_range] of [unordered_map::at], or has no defined
    behaviour (a store past the end of a [std::array<_, 8>]). *)

Inductive outcome (A : Type) : Type :=
| Ret (a : A)
| AssertFail
| OutOfRange
| Undefined.

Arguments Ret {A} a.
Arguments AssertFail {A}.
Arguments OutOfRange {A}.
Arguments Undefined {A}.

#[global] Instance outcome_ret : MRet outcome := fun A a => Ret a.
#[global] Instance outcome_bind : MBind outcome := fun A B f m =>
  match m with
  | Ret a => f a
  | AssertFail => AssertFail
  | OutOfRange => OutOfRange
  | Undefined => Undefined
  end.

(** [NPNR_ASSERT(cond)] *)
Definition NPNR_ASSERT (cond : bool) : outcome unit :=
  if cond then Ret tt else AssertFail.

(** ** Machine integers

    [int] is 32 bits wide and [size_t] 64 bits wide.  Signed overflow is
    modelled by the two's complement wrap-around of the supported
    targets; the conversion of a [size_t] to [int] is the same
    reduction. *)

Definition int_wrap (z : Z) : Z := (z + 2 ^ 31) mod 2 ^ 32 - 2 ^ 31.
Definition size_wrap (z : Z) : Z := z mod 2 ^ 64.

Definition int_add (a b : Z) : Z := int_wrap (a + b).
Definition int_range (z : Z) : Prop := - 2 ^ 31 <= z < 2 ^ 31.

(** ** Data model *)

(** An [IdString] is an interned string; two of them are equal exactly
    when their strings are.  The constants [id_X] of [constids.inc]
    intern the string [X]. *)
Abbreviation IdString := string (only parsing).

Definition id (s : string) : IdString := s.

Definition id_ICESTORM_LC : IdString := "ICESTORM_LC".
Definition id_SB_IO : IdString := "SB_IO".
Definition id_SB_GB : IdString := "SB_GB".
Definition id_D_IN_0 : IdString := "D_IN_0".
Definition id_D_IN_1 : IdString := "D_IN_1".
Definition id_PLLOUT_A : IdString := "PLLOUT_A".
Definition id_PLLOUT_B : IdString := "PLLOUT_B".
Definition id_INPUT_CLK : IdString := "INPUT_CLK".
Definition id_OUTPUT_CLK : IdString := "OUTPUT_CLK".
Definition id_CLOCK_ENABLE : IdString := "CLOCK_ENABLE".
Definition id_GLOBAL_BUFFER_OUTPUT : IdString := "GLOBAL_BUFFER_OUTPUT".

(** A [NetInfo *] is the address of a net, or [nullptr].  Two pointers
    are equal when they are both null or hold the same address. *)
Definition NetAddr := N.
Definition NetPtr := option NetAddr.

Definition nullptr : NetPtr := None.

Definition net_eqb (a b : NetPtr) : bool :=
  match a, b with
  | None, None => true
  | Some x, Some y => N.eqb x y
  | _, _ => false
  end.

Record NetInfo := {
  is_global : bool;
  is_reset : bool;
  is_enable : bool
}.

Record PortInfo := { net : NetPtr }.

Record LcInfo := {
  dffEnable : bool;
  negClk : bool;
  inputCount : Z;
  clk : NetPtr;
  cen : NetPtr;
  sr : NetPtr
}.

Record IoInfo := {
  lvds : bool;
  pintype : Z
}.

Record GbInfo := { forPadIn : bool }.

(** The payloads [lcInfo], [ioInfo] and [gbInfo] are read by the code
    after a test of [type] (and [ioInfo] of the neighbouring cell without
    one); the cell carries all three. *)
Record CellInfo := {
  type : IdString;
  ports : gmap string PortInfo;
  attrs : gmap string string;
  lcInfo : LcInfo;
  ioInfo : IoInfo;
  gbInfo : GbInfo
}.

Definition BelId := Z.
Definition WireId := Z.

Record Loc := { x : Z; y : Z; z : Z }.

(** [struct BelPin { BelId bel; IdString pin; }] *)
Record BelPin := { BelPin_bel : BelId; BelPin_pin : IdString }.

(** The architecture context: the net store and the read-only queries of
    the fabric and binding databases that [arch_place.cc] calls.  They
    are defined outside this file and are taken as they are declared. *)
Record Arch := {
  net_info : NetAddr -> NetInfo;
  getBelType : BelId -> IdString;
  getBelLocation : BelId -> Loc;
  getBelsByTile : Z -> Z -> list BelId;
  getBoundBelCell : BelId -> option CellInfo;
  getBelByLocation : Loc -> BelId;
  getBelPinWire : BelId -> IdString -> WireId;
  getWireBelPins : WireId -> list BelPin;
  getBelName : BelId -> IdString;
  getBelPackagePin : BelId -> string;
  getDrivenGlobalNetwork : BelId -> Z;
  is_sb_pll40_dual : CellInfo -> bool
}.

(** [cell->ports[p].net]: [operator[]] on a missing key yields a
    default-constructed port, whose net is null. *)
Definition port_net (cell : CellInfo) (p : IdString) : NetPtr :=
  match ports cell !! p with
  | Some pi => net pi
  | None => nullptr
  end.

(** [cell->ports.at(p).net]: [at] throws on a missing key. *)
Definition port_net_at (cell : CellInfo) (p : IdString) : outcome NetPtr :=
  match ports cell !! p with
  | Some pi => Ret (net pi)
  | None => OutOfRange
  end.

(** [cell->attrs[k]]: a missing key yields the empty string. *)
Definition attr (cell : CellInfo) (k : IdString) : string :=
  match attrs cell !! k with
  | Some v => v
  | None => EmptyString
  end.

(** ** Arch::logicCellsCompatible *)

(** [p != nullptr && !p->is_global] *)
Definition is_local (this : Arch) (p : NetPtr) : bool :=
  match p with
  | None => false
  | Some a => negb (is_global (net_info this a))
  end.

(** The locals of the loop. *)
Record lc_state := {
  dffs_exist : bool;
  dffs_neg : bool;
  st_cen : NetPtr;
  st_clk : NetPtr;
  st_sr : NetPtr;
  locals_count : Z
}.

Definition lc_init : lc_state :=
  {| dffs_exist := false; dffs_neg := false;
     st_cen := nullptr; st_clk := nullptr; st_sr := nullptr;
     locals_count := 0 |}.

(** [if (c) locals_count++;] *)
Definition count_if (c : bool) (st : lc_state) : lc_state :=
  if c then
    {| dffs_exist := dffs_exist st; dffs_neg := dffs_neg st;
       st_cen := st_cen st; st_clk := st_clk st; st_sr := st_sr st;
       locals_count := int_add (locals_count st) 1 |}
  else st.

(** [locals_count += n;] *)
Definition add_locals (st : lc_state) (n : Z) : lc_state :=
  {| dffs_exist := dffs_exist st; dffs_neg := dffs_neg st;
     st_cen := st_cen st; st_clk := st_clk st; st_sr := st_sr st;
     locals_count := int_add (locals_count st) n |}.

(** The first branch of [if (!dffs_exist)]: the control set of the cell
    is recorded and its local control nets are counted. *)
Definition record_dff (this : Arch) (st : lc_state) (cell : CellInfo)
  : lc_state :=
  let st1 :=
    {| dffs_exist := true; dffs_neg := dffs_neg st;
       st_cen := cen (lcInfo cell); st_clk := clk (lcInfo cell);
       st_sr := sr (lcInfo cell); locals_count := locals_count st |} in
  let st2 := count_if (is_local this (st_cen st1)) st1 in
  let st3 := count_if (is_local this (st_clk st2)) st2 in
  let st4 := count_if (is_local this (st_sr st3)) st3 in
  if negClk (lcInfo cell) then
    {| dffs_exist := dffs_exist st4; dffs_neg := true;
       st_cen := st_cen st4; st_clk := st_clk st4; st_sr := st_sr st4;
       locals_count := locals_count st4 |}
  else st4.

(** The block [if (cell->lcInfo.dffEnable) { ... }]; [None] is one of its
    four [return false]. *)
Definition dff_block (this : Arch) (st : lc_state) (cell : CellInfo)
  : option lc_state :=
  if dffEnable (lcInfo cell) then
    if negb (dffs_exist st) then Some (record_dff this st cell)
    else if negb (net_eqb (st_cen st) (cen (lcInfo cell))) then None
    else if negb (net_eqb (st_clk st) (clk (lcInfo cell))) then None
    else if negb (net_eqb (st_sr st) (sr (lcInfo cell))) then None
    else if negb (Bool.eqb (dffs_neg st) (negClk (lcInfo cell))) then None
    else Some st
  else Some st.

Fixpoint lc_loop (this : Arch) (cells : list CellInfo) (st : lc_state)
  : outcome bool :=
  match cells with
  | [] => Ret (locals_count st <=? 32)
  | cell :: rest =>
    _ ← NPNR_ASSERT (String.eqb (type cell) id_ICESTORM_LC);
    match dff_block this st cell with
    | None => Ret false
    | Some st' =>
      lc_loop this rest (add_locals st' (inputCount (lcInfo cell)))
    end
  end.

Definition logicCellsCompatible (this : Arch) (cells : list CellInfo)
  : outcome bool :=
  lc_loop this cells lc_init.

(** ** Collecting the cells bound in a tile

    [bel_cells] is a [std::array<const CellInfo *, 8>] filled from index
    0; [acc] is its filled prefix and [num_cells] its length.  A store at
    index 8 or above is outside the array. *)

Definition array_store (acc : list CellInfo) (ci : CellInfo)
  : outcome (list CellInfo) :=
  if (length acc <? 8)%nat then Ret (acc ++ [ci]) else Undefined.

(** The loop over [getBelsByTile]; [keep bel_other] is the second
    conjunct of the test guarding the store ([true] in
    [isBelLocationValid], [bel_other != bel] in [isValidBelForCell]). *)
Fixpoint collect_cells (this : Arch) (keep : BelId -> bool)
    (bels : list BelId) (acc : list CellInfo) : outcome (list CellInfo) :=
  match bels with
  | [] => Ret acc
  | bel_other :: rest =>
    match getBoundBelCell this bel_other with
    | Some ci_other =>
      if keep bel_other then
        acc' ← array_store acc ci_other;
        collect_cells this keep rest acc'
      else collect_cells this keep rest acc
    | None => collect_cells this keep rest acc
    end
  end.

(** ** Pin-type classification *)

Definition _io_pintype_need_clk_in (pin_type : Z) : bool :=
  Z.land pin_type 0x01 =? 0x00.

Definition _io_pintype_need_clk_out (pin_type : Z) : bool :=
  (Z.land pin_type 0x30 =? 0x30)
  || (negb (Z.land pin_type 0x3c =? 0) && negb (Z.land pin_type 0x0c =? 0x08)).

Definition _io_pintype_need_clk_en (pin_type : Z) : bool :=
  _io_pintype_need_clk_in pin_type || _io_pintype_need_clk_out pin_type.

(** ** Arch::isValidBelForCell *)

(** The scan of the pins on the wire of [D_IN_0].  [Some r] is
    [return r] from inside the loop; [None] is leaving the loop, by
    [break] or at its end. *)
Fixpoint pll_scan (this : Arch) (cell : CellInfo) (bel : BelId)
    (pins : list BelPin) : option bool :=
  match pins with
  | [] => None
  | pin :: rest =>
    if String.eqb (BelPin_pin pin) id_PLLOUT_A
       || String.eqb (BelPin_pin pin) id_PLLOUT_B then
      match getBoundBelCell this (BelPin_bel pin) with
      | None => None
      | Some pll_cell =>
        if String.eqb (BelPin_pin pin) id_PLLOUT_B
           && negb (is_sb_pll40_dual this pll_cell) then None
        else if net_eqb (port_net cell id_D_IN_0) nullptr
                && net_eqb (port_net cell id_D_IN_1) nullptr then None
        else if String.eqb (attr pll_cell (id "BEL_PAD_INPUT"))
                  (getBelName this bel) then Some true
        else Some false
      end
    else pll_scan this cell bel rest
  end.

(** The arrays [use] and [nets] of the shared-net check. *)
Definition io_use (cell compCell : CellInfo) : list bool :=
  [ _io_pintype_need_clk_in (pintype (ioInfo cell));
    _io_pintype_need_clk_in (pintype (ioInfo compCell));
    _io_pintype_need_clk_out (pintype (ioInfo cell));
    _io_pintype_need_clk_out (pintype (ioInfo compCell));
    _io_pintype_need_clk_en (pintype (ioInfo cell));
    _io_pintype_need_clk_en (pintype (ioInfo compCell)) ].

Definition io_nets (cell compCell : CellInfo) : list NetPtr :=
  [ port_net cell id_INPUT_CLK; port_net compCell id_INPUT_CLK;
    port_net cell id_OUTPUT_CLK; port_net compCell id_OUTPUT_CLK;
    port_net cell id_CLOCK_ENABLE; port_net compCell id_CLOCK_ENABLE ].

(** The test of the loop body at index [i]:
    [use[i] && (nets[i] != nets[i ^ 1]) && (use[i ^ 1] || (nets[i ^ 1] != nullptr))] *)
Definition io_conflict_at (use : list bool) (nets : list NetPtr) (i : nat)
  : bool :=
  nth i use false
  && negb (net_eqb (nth i nets nullptr) (nth (Nat.lxor i 1) nets nullptr))
  && (nth (Nat.lxor i 1) use false
      || negb (net_eqb (nth (Nat.lxor i 1) nets nullptr) nullptr)).

(** [for (int i = 0; i < 6; i++) if (...) return false;] *)
Definition io_conflict (cell compCell : CellInfo) : bool :=
  existsb (io_conflict_at (io_use cell compCell) (io_nets cell compCell))
    (seq 0 6).

(** The block [if (cell->ioInfo.lvds) { ... } else { ... }] of the
    [SB_IO] branch; [true] is one of its [return false]. *)
Definition io_pair_rejects (this : Arch) (cell : CellInfo) (bel : BelId)
  : bool :=
  let ioLoc := getBelLocation this bel in
  let compLoc := {| x := x ioLoc; y := y ioLoc; z := int_wrap (1 - z ioLoc) |} in
  if lvds (ioInfo cell) then
    if negb (z ioLoc =? 0) then true
    else
      let compBel := getBelByLocation this compLoc in
      match getBoundBelCell this compBel with
      | Some _ => true
      | None => false
      end
  else
    let compBel := getBelByLocation this compLoc in
    match getBoundBelCell this compBel with
    | Some compCell =>
      if lvds (ioInfo compCell) then true
      else io_conflict cell compCell
    | None => false
    end.

(** The [SB_IO] branch after the pin scan, down to the final test that
    [getBelPackagePin(bel)] is not the empty string. *)
Definition io_pair_check (this : Arch) (cell : CellInfo) (bel : BelId) : bool :=
  if io_pair_rejects this cell bel then false
  else negb (String.eqb (getBelPackagePin this bel) EmptyString).

(** The [SB_GB] branch. *)
Definition gb_check (this : Arch) (cell : CellInfo) (bel : BelId)
  : outcome bool :=
  if forPadIn (gbInfo cell) then Ret true
  else
    p ← port_net_at cell id_GLOBAL_BUFFER_OUTPUT;
    _ ← NPNR_ASSERT (negb (net_eqb p nullptr));
    net' ← port_net_at cell id_GLOBAL_BUFFER_OUTPUT;
    let glb_id := getDrivenGlobalNetwork this bel in
    match net' with
    | None => Undefined
    | Some a =>
      let n := net_info this a in
      if is_reset n && is_enable n then Ret false
      else if is_reset n then Ret (Z.rem glb_id 2 =? 0)
      else if is_enable n then Ret (Z.rem glb_id 2 =? 1)
      else Ret true
    end.

Definition isValidBelForCell (this : Arch) (cell : CellInfo) (bel : BelId)
  : outcome bool :=
  if String.eqb (type cell) id_ICESTORM_LC then
    _ ← NPNR_ASSERT (String.eqb (getBelType this bel) id_ICESTORM_LC);
    let bel_loc := getBelLocation this bel in
    bel_cells ← collect_cells this (fun bel_other => negb (bel_other =? bel))
                  (getBelsByTile this (x bel_loc) (y bel_loc)) [];
    bel_cells' ← array_store bel_cells cell;
    logicCellsCompatible this bel_cells'
  else if String.eqb (type cell) id_SB_IO then
    let wire := getBelPinWire this bel id_D_IN_0 in
    match pll_scan this cell bel (getWireBelPins this wire) with
    | Some r => Ret r
    | None => Ret (io_pair_check this cell bel)
    end
  else if String.eqb (type cell) id_SB_GB then
    gb_check this cell bel
  else Ret true.

(** ** Arch::isBelLocationValid *)

Definition isBelLocationValid (this : Arch) (bel : BelId) : outcome bool :=
  if String.eqb (getBelType this bel) id_ICESTORM_LC then
    let bel_loc := getBelLocation this bel in
    bel_cells ← collect_cells this (fun _ => true)
                  (getBelsByTile this (x bel_loc) (y bel_loc)) [];
    logicCellsCompatible this bel_cells
  else
    match getBoundBelCell this bel with
    | None => Ret true
    | Some ci => isValidBelForCell this ci bel
    end.

(** ** Arch::scoreBelForCell *)

(** The counting loop; [num_cells] is a [size_t]. *)
Fixpoint count_others (this : Arch) (bel : BelId) (bels : list BelId)
    (num_cells : Z) : Z :=
  match bels with
  | [] => num_cells
  | bel_other :: rest =>
    match getBoundBelCell this bel_other with
    | Some _ =>
      if negb (bel_other =? bel)
      then count_others this bel rest (size_wrap (num_cells + 1))
      else count_others this bel rest num_cells
    | None => count_others this bel rest num_cells
    end
  end.

Definition scoreBelForCell (this : Arch) (cell : CellInfo) (bel : BelId)
  : outcome Z :=
  if negb (String.eqb (type cell) id_ICESTORM_LC) then Ret 0
  else
    _ ← NPNR_ASSERT (String.eqb (getBelType this bel) id_ICESTORM_LC);
    if negb (dffEnable (lcInfo cell)) then Ret 8
    else
      let bel_loc := getBelLocation this bel in
      let num_cells :=
        count_others this bel (getBelsByTile this (x bel_loc) (y bel_loc)) 0 in
      Ret (int_wrap (size_wrap (8 - num_cells))).

(** ** Closed forms used in the statements *)

Definition is_lc (c : CellInfo) : bool := String.eqb (type c) id_ICESTORM_LC.

Definition uses_dff (c : CellInfo) : bool := dffEnable (lcInfo c).

(** Equality of the control sets [(cen, clk, sr, negClk)] of two cells,
    nets compared as pointers. *)
Definition ctrl_eqb (a b : CellInfo) : bool :=
  net_eqb (cen (lcInfo a)) (cen (lcInfo b))
  && net_eqb (clk (lcInfo a)) (clk (lcInfo b))
  && net_eqb (sr (lcInfo a)) (sr (lcInfo b))
  && Bool.eqb (negClk (lcInfo a)) (negClk (lcInfo b)).

Definition same_ctrl (a b : CellInfo) : Prop :=
  cen (lcInfo a) = cen (lcInfo b) /\ clk (lcInfo a) = clk (lcInfo b)
  /\ sr (lcInfo a) = sr (lcInfo b) /\ negClk (lcInfo a) = negClk (lcInfo b).

Definition input_sum (cells : list CellInfo) : Z :=
  fold_right (fun c s => inputCount (lcInfo c) + s) 0 cells.

(** The number of control slots of a cell that hold a non-null,
    non-global net. *)
Definition ctrl_slots (this : Arch) (c : CellInfo) : Z :=
  Z.b2z (is_local this (cen (lcInfo c)))
  + Z.b2z (is_local this (clk (lcInfo c)))
  + Z.b2z (is_local this (sr (lcInfo c))).

Definition first_dff (cells : list CellInfo) : option CellInfo :=
  List.find uses_dff cells.

(** The budget of a tile: the inputs of all its cells, and the local
    control slots of its DFF-using cells (taken from the first one). *)
Definition tile_budget (this : Arch) (cells : list CellInfo) : Z :=
  input_sum cells
  + match first_dff cells with
    | Some c => ctrl_slots this c
    | None => 0
    end.

(** Every DFF-using cell has the control set of the first one. *)
Definition dffs_agree (cells : list CellInfo) : bool :=
  match first_dff cells with
  | Some c => forallb (fun d => implb (uses_dff d) (ctrl_eqb c d)) cells
  | None => true
  end.

Definition st_matches (st : lc_state) (d : CellInfo) : bool :=
  net_eqb (st_cen st) (cen (lcInfo d))
  && net_eqb (st_clk st) (clk (lcInfo d))
  && net_eqb (st_sr st) (sr (lcInfo d))
  && Bool.eqb (dffs_neg st) (negClk (lcInfo d)).

(** No two DFF-using cells of the collection differ in their control
    sets. *)
Definition no_mismatch (cells : list CellInfo) : Prop :=
  forall a b, In a cells -> In b cells ->
    uses_dff a = true -> uses_dff b = true -> same_ctrl a b.

(** ** The budget as the specification words it

    "the sum of every cell's inputCount plus exactly 1 for each distinct
    non-global, non-null control net (cen/clk/sr) appearing across the
    cells": the nets are gathered in a set, so that a net is counted
    once wherever and however often it appears. *)

Definition control_nets (cells : list CellInfo) : list NetPtr :=
  flat_map (fun c => [cen (lcInfo c); clk (lcInfo c); sr (lcInfo c)]) cells.

Definition local_net (this : Arch) (p : NetPtr) : option NetAddr :=
  match p with
  | Some a => if is_global (net_info this a) then None else Some a
  | None => None
  end.

Definition distinct_local_nets (this : Arch) (cells : list CellInfo)
  : gset NetAddr :=
  list_to_set (omap (local_net this) (control_nets cells)).

Definition distinct_net_budget (this : Arch) (cells : list CellInfo) : Z :=
  input_sum cells + Z.of_nat (size (distinct_local_nets this cells)).

(** "absent a control-signal mismatch, the check succeeds iff this
    budget is at most 32" *)
Definition distinct_net_budget_rule (this : Arch) (cells : list CellInfo)
  : Prop :=
  no_mismatch cells ->
  (logicCellsCompatible this cells = Ret true
   <-> distinct_net_budget this cells <= 32).

(** ** A small fabric for examples

    One logic tile at (0, 0) with the eight logic sites 0..7; an IO
    tile at (0, 1) with the paired IO sites 10 and 11, both bonded to
    package pins; an IO tile at (0, 3) with the paired IO sites 12 and
    13, not bonded in this package; the global buffer sites 20 (network
    0) and 21 (network 1) and a PLL site 22 at (0, 2), whose output A
    shares the [D_IN_0] wire of site 11.  Nets 1 and 2 are local, net 3
    is global, net 4 is reset- and enable-classified, net 5
    reset-classified, net 6 enable-classified. *)

Definition sample_net (a : NetAddr) : NetInfo :=
  {| is_global := N.eqb a 3;
     is_reset := N.eqb a 4 || N.eqb a 5;
     is_enable := N.eqb a 4 || N.eqb a 6 |}.

Definition sample_arch (bound : BelId -> option CellInfo) : Arch :=
  {| net_info := sample_net;
     getBelType := fun b =>
       if (0 <=? b) && (b <? 8) then id_ICESTORM_LC
       else if (10 <=? b) && (b <? 14) then id_SB_IO
       else if (b =? 20) || (b =? 21) then id_SB_GB
       else "ICESTORM_PLL"%string;
     getBelLocation := fun b =>
       if (0 <=? b) && (b <? 8) then {| x := 0; y := 0; z := b |}
       else if (b =? 10) || (b =? 11) then {| x := 0; y := 1; z := b - 10 |}
       else if (b =? 12) || (b =? 13) then {| x := 0; y := 3; z := b - 12 |}
       else {| x := 0; y := 2; z := b - 20 |};
     getBelsByTile := fun tx ty =>
       if (tx =? 0) && (ty =? 0) then [0; 1; 2; 3; 4; 5; 6; 7]
       else if (tx =? 0) && (ty =? 1) then [10; 11]
       else if (tx =? 0) && (ty =? 2) then [20; 21; 22]
       else if (tx =? 0) && (ty =? 3) then [12; 13]
       else [];
     getBoundBelCell := bound;
     getBelByLocation := fun l =>
       if (x l =? 0) && (y l =? 0) then z l
       else if (x l =? 0) && (y l =? 1) then 10 + z l
       else if (x l =? 0) && (y l =? 3) then 12 + z l
       else 20 + z l;
     getBelPinWire := fun b _ => 100 + b;
     getWireBelPins := fun w =>
       if w =? 111
       then [ {| BelPin_bel := 11; BelPin_pin := id_D_IN_0 |};
              {| BelPin_bel := 22; BelPin_pin := id_PLLOUT_A |} ]
       else [];
     getBelName := fun b =>
       if b =? 10 then "X0/Y1/io0"%string
       else if b =? 11 then "X0/Y1/io1"%string
       else "X0/Y0/bel"%string;
     getBelPackagePin := fun b =>
       if b =? 10 then "A1"%string
       else if b =? 11 then "A2"%string
       else EmptyString;
     getDrivenGlobalNetwork := fun b => b - 20;
     is_sb_pll40_dual := fun _ => false |}.

Definition unbound : BelId -> option CellInfo := fun _ => None.

Definition bind (b : BelId) (c : CellInfo)
    (bound : BelId -> option CellInfo) : BelId -> option CellInfo :=
  fun b' => if b' =? b then Some c else bound b'.

Definition no_lc : LcInfo :=
  {| dffEnable := false; negClk := false; inputCount := 0;
     clk := nullptr; cen := nullptr; sr := nullptr |}.

Definition no_io : IoInfo := {| lvds := false; pintype := 1 |}.

Definition no_gb : GbInfo := {| forPadIn := false |}.

Definition logic_cell (lc : LcInfo) : CellInfo :=
  {| type := id_ICESTORM_LC; ports := ∅; attrs := ∅;
     lcInfo := lc; ioInfo := no_io; gbInfo := no_gb |}.

(** A logic cell with [n] inputs and no flip-flop. *)
Definition lut_cell (n : Z) : CellInfo :=
  logic_cell {| dffEnable := false; negClk := false; inputCount := n;
                clk := nullptr; cen := nullptr; sr := nullptr |}.

(** A logic cell with [n] inputs and a flip-flop on the given nets. *)
Definition dff_cell (n : Z) (cen' clk' sr' : NetPtr) (neg : bool) : CellInfo :=
  logic_cell {| dffEnable := true; negClk := neg; inputCount := n;
                clk := clk'; cen := cen'; sr := sr' |}.

Definition io_cell (io : IoInfo) (p : gmap string PortInfo) : CellInfo :=
  {| type := id_SB_IO; ports := p; attrs := ∅;
     lcInfo := no_lc; ioInfo := io; gbInfo := no_gb |}.

Definition gb_cell (pad : bool) (out : NetPtr) : CellInfo :=
  {| type := id_SB_GB;
     ports := {[ id_GLOBAL_BUFFER_OUTPUT := {| net := out |} ]};
     attrs := ∅;
     lcInfo := no_lc; ioInfo := no_io; gbInfo := {| forPadIn := pad |} |}.

Definition pll_cell_for (pad_input : string) : CellInfo :=
  {| type := "ICESTORM_PLL"%string; ports := ∅;
     attrs := {[ "BEL_PAD_INPUT"%string := pad_input ]};
     lcInfo := no_lc; ioInfo := no_io; gbInfo := no_gb |}.

(** ** The statements of the specification that the code does not meet *)

(** "For every bel that has no bound cell, isBelLocationValid(bel)
    returns true." *)
Definition unbound_site_valid (this : Arch) (bel : BelId) : Prop :=
  getBoundBelCell this bel = None -> isBelLocationValid this bel = Ret true.

(** The output net of a global buffer cell, and its classification. *)
Definition gb_output (this : Arch) (cell : CellInfo) (n : NetInfo) : Prop :=
  exists a, ports cell !! id_GLOBAL_BUFFER_OUTPUT = Some {| net := Some a |}
            /\ net_info this a = n.

(** "For every GlobalBufferCell whose output net is both
    reset-classified and enable-classified, isValidBelForCell(cell, bel)
    returns false, for every bel." *)
Definition reset_enable_rejected (this : Arch) (cell : CellInfo) : Prop :=
  type cell = id_SB_GB ->
  forall n, gb_output this cell n ->
    is_reset n = true -> is_enable n = true ->
    forall bel, isValidBelForCell this cell bel = Ret false.

(** "For every GlobalBufferCell whose output net is reset-classified
    (and not enable-classified), isValidBelForCell accepts only on bels
    driving an even-indexed global network; for an enable-classified
    (and not reset-classified) net, only on odd-indexed global
    networks." *)
Definition gb_parity_only (this : Arch) (cell : CellInfo) : Prop :=
  type cell = id_SB_GB ->
  forall n, gb_output this cell n ->
    forall bel, isValidBelForCell this cell bel = Ret true ->
      (is_reset n = true -> is_enable n = false ->
         Z.even (getDrivenGlobalNetwork this bel) = true)
      /\ (is_enable n = true -> is_reset n = false ->
         Z.odd (getDrivenGlobalNetwork this bel) = true).

(** "for every LogicCell with dffEnable false it returns exactly 8
    regardless of tile occupancy" *)
Definition lut_score_is_8 (this : Arch) (cell : CellInfo) (bel : BelId) : Prop :=
  type cell = id_ICESTORM_LC -> dffEnable (lcInfo cell) = false ->
  scoreBelForCell this cell bel = Ret 8.

(** "Evaluating the tile compatibility check on a collection containing
    a cell whose type tag is not LogicCell [...] aborts the run via a
    fatal assertion rather than returning a boolean" *)
Definition foreign_cell_aborts (this : Arch) (cells : list CellInfo) : Prop :=
  (exists c, In c cells /\ type c <> id_ICESTORM_LC) ->
  logicCellsCompatible this cells = AssertFail.

(** ** The loop on a prefix of the collection

    The state in which the loop of [logicCellsCompatible] leaves a
    prefix of logic cells, or [None] when it returns [false] inside
    it. *)
Fixpoint lc_run (this : Arch) (cells : list CellInfo) (st : lc_state)
  : option lc_state :=
  match cells with
  | [] => Some st
  | c :: rest =>
    match dff_block this st c with
    | None => None
    | Some st' => lc_run this rest (add_locals st' (inputCount (lcInfo c)))
    end
  end.

Definition completes (r : option lc_state) : bool :=
  match r with Some _ => true | None => false end.

(** ** Occupancy of a tile *)

Definition is_bound (this : Arch) (b : BelId) : bool :=
  match getBoundBelCell this b with Some _ => true | None => false end.

(** The sites of the tile of [bel], other than [bel], that have a bound
    cell. *)
Definition occupied_siblings (this : Arch) (bel : BelId) : list BelId :=
  List.filter (fun b => is_bound this b && negb (b =? bel))
    (getBelsByTile this (x (getBelLocation this bel))
       (y (getBelLocation this bel))).

(** The context after the search has bound cell [c] to site [b]. *)
Definition rebind (this : Arch) (b : BelId) (c : CellInfo) : Arch :=
  {| net_info := net_info this;
     getBelType := getBelType this;
     getBelLocation := getBelLocation this;
     getBelsByTile := getBelsByTile this;
     getBoundBelCell := fun b' => if b' =? b then Some c else getBoundBelCell this b';
     getBelByLocation := getBelByLocation this;
     getBelPinWire := getBelPinWire this;
     getWireBelPins := getWireBelPins this;
     getBelName := getBelName this;
     getBelPackagePin := getBelPackagePin this;
     getDrivenGlobalNetwork := getDrivenGlobalNetwork this;
     is_sb_pll40_dual := is_sb_pll40_dual this |}.

(** ** Paired IO sites *)

(** The site at the complementary sub-index of the location of [bel]. *)
Definition paired_site (this : Arch) (bel : BelId) : BelId :=
  getBelByLocation this
    {| x := x (getBelLocation this bel);
       y := y (getBelLocation this bel);
       z := int_wrap (1 - z (getBelLocation this bel)) |}.

Definition has_package_pin (this : Arch) (bel : BelId) : bool :=
  negb (String.eqb (getBelPackagePin this bel) EmptyString).

(** The pin scan of the [SB_IO] branch, on the wire of [D_IN_0]. *)
Definition pll_decision (this : Arch) (cell : CellInfo) (bel : BelId)
  : option bool :=
  pll_scan this cell bel (getWireBelPins this (getBelPinWire this bel id_D_IN_0)).

(** The three signal classes shared by paired IO sites: the classifier
    of the pin type and the port of the net. *)
Definition io_classes : list ((Z -> bool) * IdString) :=
  [ (_io_pintype_need_clk_in, id_INPUT_CLK);
    (_io_pintype_need_clk_out, id_OUTPUT_CLK);
    (_io_pintype_need_clk_en, id_CLOCK_ENABLE) ].

(** Cell [a] needs the class, the two net slots hold different nets, and
    cell [b] needs the class too or has a net there. *)
Definition class_conflict (k : (Z -> bool) * IdString) (a b : CellInfo) : bool :=
  fst k (pintype (ioInfo a))
  && negb (net_eqb (port_net a (snd k)) (port_net b (snd k)))
  && (fst k (pintype (ioInfo b))
      || negb (net_eqb (port_net b (snd k)) nullptr)).

Definition pair_conflict (cell compCell : CellInfo) : bool :=
  existsb (fun k => class_conflict k cell compCell
                    || class_conflict k compCell cell) io_classes.

(** "needs-input-clock iff bit0=0; needs-output-clock iff bits4-5 both
    set, or any of bits2-5 set and bits2-3 not equal to binary 10;
    needs-clock-enable iff either of the first two" *)
Definition bit0_clear (p : Z) : bool := negb (Z.testbit p 0).

Definition out_clock_bits (p : Z) : bool :=
  (Z.testbit p 4 && Z.testbit p 5)
  || ((Z.testbit p 2 || Z.testbit p 3 || Z.testbit p 4 || Z.testbit p 5)
      && negb (Z.testbit p 3 && negb (Z.testbit p 2))).

(** "For every pair of non-LVDS IOCells bound to the two paired sites of
    one IO location [...] isValidBelForCell rejects when, for a class
    one cell needs, the two cells' corresponding net slots hold
    different nets and the other side either needs that class or has a
    non-null net there" *)
Definition shared_net_rule (this : Arch) (cell compCell : CellInfo)
    (bel : BelId) : Prop :=
  type cell = id_SB_IO -> type compCell = id_SB_IO ->
  lvds (ioInfo cell) = false -> lvds (ioInfo compCell) = false ->
  getBoundBelCell this bel = Some cell ->
  getBoundBelCell this (paired_site this bel) = Some compCell ->
  pair_conflict cell compCell = true ->
  isValidBelForCell this cell bel = Ret false.

(** "For every LVDS IOCell and every IO bel: isValidBelForCell rejects
    when the bel's sub-index (z) is not 0, and at sub-index 0 it rejects
    iff the paired sub-index-1 site is occupied." *)
Definition lvds_rule (this : Arch) (cell : CellInfo) (bel : BelId) : Prop :=
  type cell = id_SB_IO -> lvds (ioInfo cell) = true ->
  getBelType this bel = id_SB_IO ->
  (z (getBelLocation this bel) <> 0 ->
     isValidBelForCell this cell bel = Ret false)
  /\ (z (getBelLocation this bel) = 0 ->
      (isValidBelForCell this cell bel = Ret false
       <-> is_bound this (paired_site this bel) = true)).

(** An IO pin type that needs an output clock and no input clock. *)
Definition pintype_out_clk : Z := 0x31.

Definition lvds_input_cell : CellInfo :=
  io_cell {| lvds := true; pintype := 1 |}
    {[ id_D_IN_0 := {| net := Some 1%N |} ]}.

Definition lvds_cell : CellInfo := io_cell {| lvds := true; pintype := 1 |} ∅.

(** A registered-output IO cell that also reads its pad, clocked by
    [c]. *)
Definition out_clk_cell (c : NetAddr) : CellInfo :=
  io_cell {| lvds := false; pintype := pintype_out_clk |}
    {[ id_D_IN_0 := {| net := Some 3%N |};
       id_OUTPUT_CLK := {| net := Some c |} ]}.

(** The sample fabric with the PLL site holding a PLL whose pad input is
    IO site 11. *)
Definition pll_on_io1 (bound : BelId -> option CellInfo)
  : BelId -> option CellInfo :=
  bind 22 (pll_cell_for "X0/Y1/io1") bound.

(** The number made of the six low bits of a pin type. *)
Definition low6 (p : Z) : Z :=
  Z.b2z (Z.testbit p 0) + 2 * Z.b2z (Z.testbit p 1)
  + 4 * Z.b2z (Z.testbit p 2) + 8 * Z.b2z (Z.testbit p 3)
  + 16 * Z.b2z (Z.testbit p 4) + 32 * Z.b2z (Z.testbit p 5).

(** ** The cells gathered from a tile *)

(** The cells bound to the sites of [bels] that pass [keep], in the
    order of [bels]: what [bel_cells] holds after the gathering loop
    when the array is large enough. *)
Fixpoint bound_cells (this : Arch) (keep : BelId -> bool) (bels : list BelId)
  : list CellInfo :=
  match bels with
  | [] => []
  | b :: rest =>
    match getBoundBelCell this b with
    | Some c =>
      if keep b then c :: bound_cells this keep rest
      else bound_cells this keep rest
    | None => bound_cells this keep rest
    end
  end.

(** The sites of the tile of [bel]. *)
Definition tile_of (this : Arch) (bel : BelId) : list BelId :=
  getBelsByTile this (x (getBelLocation this bel)) (y (getBelLocation this bel)).

Definition all_sites : BelId -> bool := fun _ => true.

Definition other_than (bel : BelId) : BelId -> bool :=
  fun bel_other => negb (bel_other =? bel).

(** The closed form of the tile check on logic cells. *)
Definition lc_verdict (this : Arch) (cells : list CellInfo) : bool :=
  dffs_agree cells && (int_wrap (tile_budget this cells) <=? 32).

(** The context with the sites of every tile replaced by [bels]. *)
Definition with_tile (this : Arch) (bels : list BelId) : Arch :=
  {| net_info := net_info this;
     getBelType := getBelType this;
     getBelLocation := getBelLocation this;
     getBelsByTile := fun _ _ => bels;
     getBoundBelCell := getBoundBelCell this;
     getBelByLocation := getBelByLocation this;
     getBelPinWire := getBelPinWire this;
     getWireBelPins := getWireBelPins this;
     getBelName := getBelName this;
     getBelPackagePin := getBelPackagePin this;
     getDrivenGlobalNetwork := getDrivenGlobalNetwork this;
     is_sb_pll40_dual := is_sb_pll40_dual this |}.

(** Every site bound to the same logic cell without flip-flop. *)
Definition all_bound : BelId -> option CellInfo := fun _ => Some (lut_cell 1).

(** ** The pin scan of an IO site *)

(** [pin.pin == id_PLLOUT_A || pin.pin == id_PLLOUT_B] *)
Definition is_pllout (pin : BelPin) : bool :=
  String.eqb (BelPin_pin pin) id_PLLOUT_A
  || String.eqb (BelPin_pin pin) id_PLLOUT_B.

(** The cell has a net on [D_IN_0] or on [D_IN_1]. *)
Definition reads_pad (cell : CellInfo) : bool :=
  negb (net_eqb (port_net cell id_D_IN_0) nullptr
        && net_eqb (port_net cell id_D_IN_1) nullptr).

(** An IO cell without any net, of a pin type that needs no clock. *)
Definition plain_io_cell : CellInfo := io_cell no_io ∅.

(** A global buffer cell without ports. *)
Definition bare_gb_cell : CellInfo :=
  {| type := id_SB_GB; ports := ∅; attrs := ∅;
     lcInfo := no_lc; ioInfo := no_io; gbInfo := no_gb |}.

(** "For every collection of LogicCells containing two DFF-using cells:
    if the two cells have identical (cen, clk, sr, negClk) [...] the
    tile compatibility check accepts iff the combined budget is at most
    32; if they differ on any one of the four fields, it rejects
    unconditionally", the budget being the one of the specification,
    with each distinct non-global control net counted once. *)
Definition two_dff_rule (this : Arch) (l1 l2 l3 : list CellInfo)
    (a b : CellInfo) : Prop :=
  Forall (fun c => is_lc c = true) (l1 ++ a :: l2 ++ b :: l3) ->
  Forall (fun c => uses_dff c = false) (l1 ++ l2 ++ l3) ->
  uses_dff a = true -> uses_dff b = true ->
  (same_ctrl a b ->
     (logicCellsCompatible this (l1 ++ a :: l2 ++ b :: l3) = Ret true
      <-> distinct_net_budget this (l1 ++ a :: l2 ++ b :: l3) <= 32))
  /\ (~ same_ctrl a b ->
      logicCellsCompatible this (l1 ++ a :: l2 ++ b :: l3) = Ret false).
(** * Properties *)

(** ** Machine arithmetic *)

Lemma int_wrap_range (n : Z) : int_range (int_wrap n).
Proof.
  unfold int_range, int_wrap.
  pose proof (Z.mod_pos_bound (n + 2 ^ 31) (2 ^ 32) ltac:(lia)). lia.
Qed.

Lemma int_wrap_id (n : Z) : int_range n -> int_wrap n = n.
Proof.
  unfold int_range, int_wrap. intros H.
  rewrite Z.mod_small by lia. lia.
Qed.

Lemma int_wrap_add_l (a b : Z) : int_wrap (int_wrap a + b) = int_wrap (a + b).
Proof.
  unfold int_wrap. f_equal.
  replace ((a + 2 ^ 31) mod 2 ^ 32 - 2 ^ 31 + b + 2 ^ 31)
    with ((a + 2 ^ 31) mod 2 ^ 32 + b) by lia.
  rewrite Zplus_mod_idemp_l. f_equal. lia.
Qed.

Lemma int_wrap_size_wrap (n : Z) : int_wrap (size_wrap n) = int_wrap n.
Proof.
  unfold int_wrap, size_wrap. f_equal.
  rewrite <- Zplus_mod_idemp_l.
  rewrite Z.mod_mod_divide by (exists (2 ^ 32); reflexivity).
  rewrite Zplus_mod_idemp_l. reflexivity.
Qed.

(** ** Pointer equality *)

Lemma net_eqb_eq (a b : NetPtr) : net_eqb a b = true <-> a = b.
Proof.
  destruct a as [p|], b as [q|]; simpl; split; intros H;
    try discriminate; try reflexivity.
  - apply N.eqb_eq in H. congruence.
  - inversion H. apply N.eqb_refl.
Qed.

Lemma net_eqb_refl (a : NetPtr) : net_eqb a a = true.
Proof. apply net_eqb_eq. reflexivity. Qed.

Lemma net_eqb_neq (a b : NetPtr) : net_eqb a b = false <-> a <> b.
Proof.
  rewrite <- net_eqb_eq. destruct (net_eqb a b); split; congruence.
Qed.

(** ** The tile check in closed form *)

Lemma ctrl_eqb_same (a b : CellInfo) : ctrl_eqb a b = true <-> same_ctrl a b.
Proof.
  unfold ctrl_eqb, same_ctrl.
  rewrite !andb_true_iff, !net_eqb_eq, Bool.eqb_true_iff. tauto.
Qed.

Lemma ctrl_eqb_refl (a : CellInfo) : ctrl_eqb a a = true.
Proof. apply ctrl_eqb_same. repeat split. Qed.

Lemma ctrl_eqb_sym (a b : CellInfo) : ctrl_eqb a b = true -> ctrl_eqb b a = true.
Proof. rewrite !ctrl_eqb_same. unfold same_ctrl. intuition congruence. Qed.

Lemma ctrl_eqb_trans (a b c : CellInfo) :
  ctrl_eqb a b = true -> ctrl_eqb b c = true -> ctrl_eqb a c = true.
Proof. rewrite !ctrl_eqb_same. unfold same_ctrl. intuition congruence. Qed.

Lemma same_ctrl_slots (this : Arch) (a b : CellInfo) :
  same_ctrl a b -> ctrl_slots this a = ctrl_slots this b.
Proof. intros (H1 & H2 & H3 & _). unfold ctrl_slots. congruence. Qed.

Lemma dff_block_seen (this : Arch) (st : lc_state) (d : CellInfo) :
  dffs_exist st = true ->
  dff_block this st d
  = if implb (uses_dff d) (st_matches st d) then Some st else None.
Proof.
  intros Hex. unfold dff_block, uses_dff, st_matches. rewrite Hex.
  destruct (dffEnable (lcInfo d)); simpl; [|reflexivity].
  destruct (net_eqb (st_cen st) _); simpl; [|reflexivity].
  destruct (net_eqb (st_clk st) _); simpl; [|reflexivity].
  destruct (net_eqb (st_sr st) _); simpl; [|reflexivity].
  destruct (Bool.eqb (dffs_neg st) _); reflexivity.
Qed.

Lemma lc_loop_cons (this : Arch) (c : CellInfo) (rest : list CellInfo)
    (st : lc_state) :
  is_lc c = true ->
  lc_loop this (c :: rest) st
  = match dff_block this st c with
    | None => Ret false
    | Some st' => lc_loop this rest (add_locals st' (inputCount (lcInfo c)))
    end.
Proof. unfold is_lc. intros H. simpl. rewrite H. reflexivity. Qed.

Lemma lc_loop_not_lc (this : Arch) (c : CellInfo) (rest : list CellInfo)
    (st : lc_state) :
  is_lc c = false -> lc_loop this (c :: rest) st = AssertFail.
Proof. unfold is_lc. intros H. simpl. rewrite H. reflexivity. Qed.

(** Once a control set is recorded, the loop checks every later
    DFF-using cell against it and adds up the inputs. *)
Lemma lc_loop_seen (this : Arch) (cells : list CellInfo) :
  forall st : lc_state,
    dffs_exist st = true ->
    int_range (locals_count st) ->
    Forall (fun c => is_lc c = true) cells ->
    lc_loop this cells st
    = Ret (forallb (fun d => implb (uses_dff d) (st_matches st d)) cells
           && (int_wrap (locals_count st + input_sum cells) <=? 32)).
Proof.
  induction cells as [|c rest IH]; intros st Hex Hr Hlc.
  - simpl. rewrite Z.add_0_r, int_wrap_id by assumption. reflexivity.
  - inversion Hlc as [|? ? Hc Hrest]; subst.
    rewrite lc_loop_cons, dff_block_seen by assumption.
    cbn [forallb input_sum fold_right].
    destruct (implb (uses_dff c) (st_matches st c)); [|reflexivity].
    rewrite IH; [| assumption | apply int_wrap_range | assumption].
    cbn [add_locals locals_count andb]. unfold int_add.
    rewrite int_wrap_add_l, Z.add_assoc. reflexivity.
Qed.

Lemma record_dff_spec (this : Arch) (st : lc_state) (c : CellInfo) :
  dffs_neg st = false ->
  let st' := record_dff this st c in
  dffs_exist st' = true
  /\ (forall d n, st_matches (add_locals st' n) d = ctrl_eqb c d)
  /\ (forall k, int_wrap (locals_count st' + k)
                = int_wrap (locals_count st + ctrl_slots this c + k)).
Proof.
  intros Hneg. unfold record_dff, ctrl_slots, st_matches, ctrl_eqb. cbn [st_cen st_clk st_sr].
  destruct (is_local this (cen (lcInfo c))); cbn [count_if st_cen st_clk st_sr];
  destruct (is_local this (clk (lcInfo c))); cbn [count_if st_cen st_clk st_sr];
  destruct (is_local this (sr (lcInfo c))); cbn [count_if st_cen st_clk st_sr];
  destruct (negClk (lcInfo c));
  cbn [dffs_exist dffs_neg st_cen st_clk st_sr locals_count add_locals Z.b2z];
  rewrite ?Hneg; (split; [reflexivity|]); (split; [reflexivity|]);
  intros k; unfold int_add;
  repeat (rewrite <- ?Z.add_assoc; rewrite int_wrap_add_l); f_equal; lia.
Qed.

Lemma forallb_pointwise {A : Type} (f g : A -> bool) (l : list A) :
  (forall a, f a = g a) -> forallb f l = forallb g l.
Proof.
  intros Hfg. induction l as [|a l IH]; [reflexivity|].
  cbn [forallb]. rewrite Hfg, IH. reflexivity.
Qed.

Lemma first_dff_cons (c : CellInfo) (rest : list CellInfo) :
  first_dff (c :: rest) = if uses_dff c then Some c else first_dff rest.
Proof. reflexivity. Qed.

(** Before any DFF-using cell is met, the loop only adds up inputs; the
    first DFF-using cell fixes the control set and its local slots. *)
Lemma lc_loop_unseen (this : Arch) (cells : list CellInfo) :
  forall st : lc_state,
    dffs_exist st = false ->
    dffs_neg st = false ->
    int_range (locals_count st) ->
    Forall (fun c => is_lc c = true) cells ->
    lc_loop this cells st
    = Ret (dffs_agree cells
           && (int_wrap (locals_count st + tile_budget this cells) <=? 32)).
Proof.
  induction cells as [|c rest IH]; intros st Hex Hneg Hr Hlc.
  - cbn. rewrite Z.add_0_r, int_wrap_id by assumption. reflexivity.
  - inversion Hlc as [|? ? Hc Hrest]; subst.
    rewrite lc_loop_cons by assumption.
    unfold dffs_agree, tile_budget. rewrite first_dff_cons.
    unfold dff_block. fold (uses_dff c).
    destruct (uses_dff c) eqn:Hd.
    + rewrite Hex. cbn [negb].
      destruct (record_dff_spec this st c Hneg) as (Hex' & Hm & Hcount).
      rewrite lc_loop_seen;
        [| assumption | apply int_wrap_range | assumption].
      cbn [forallb input_sum fold_right]. rewrite Hd, ctrl_eqb_refl.
      cbn [implb andb]. f_equal. f_equal.
      * apply forallb_pointwise. intros d. rewrite Hm. reflexivity.
      * cbn [add_locals locals_count]. unfold int_add.
        rewrite int_wrap_add_l, <- Z.add_assoc, Hcount. f_equal. f_equal.
        fold (input_sum rest). lia.
    + rewrite IH; [| assumption | assumption | apply int_wrap_range | assumption].
      unfold dffs_agree, tile_budget.
      cbn [add_locals locals_count input_sum fold_right]. unfold int_add.
      rewrite int_wrap_add_l. fold (input_sum rest).
      f_equal. f_equal.
      * destruct (first_dff rest); [|reflexivity].
        cbn [forallb]. rewrite Hd. reflexivity.
      * f_equal. f_equal. lia.
Qed.

(** The tile check on logic cells, in closed form. *)
Lemma logicCellsCompatible_closed (this : Arch) (cells : list CellInfo) :
  Forall (fun c => is_lc c = true) cells ->
  logicCellsCompatible this cells
  = Ret (dffs_agree cells && (int_wrap (tile_budget this cells) <=? 32)).
Proof.
  intros Hlc. unfold logicCellsCompatible.
  rewrite lc_loop_unseen; try assumption; try reflexivity.
  unfold int_range. cbn. lia.
Qed.

(** ** Agreement of the DFF-using cells *)

Lemma first_dff_none (cells : list CellInfo) :
  first_dff cells = None <-> (forall d, In d cells -> uses_dff d = false).
Proof.
  unfold first_dff. split.
  - intros H d Hd. exact (find_none _ _ H d Hd).
  - intros H. induction cells as [|c rest IH]; [reflexivity|].
    cbn [find]. rewrite (H c) by (left; reflexivity).
    apply IH. intros d Hd. apply H. right. exact Hd.
Qed.

Lemma dffs_agree_iff (cells : list CellInfo) :
  dffs_agree cells = true <-> no_mismatch cells.
Proof.
  unfold dffs_agree, no_mismatch.
  destruct (first_dff cells) as [c|] eqn:Hf.
  - rewrite forallb_forall. split.
    + intros H a b Ha Hb Hda Hdb.
      pose proof (H a Ha) as Hca. pose proof (H b Hb) as Hcb.
      rewrite Hda in Hca. rewrite Hdb in Hcb. cbn [implb] in Hca, Hcb.
      apply ctrl_eqb_same.
      apply ctrl_eqb_trans with c; [apply ctrl_eqb_sym|]; assumption.
    + intros H d Hd. destruct (uses_dff d) eqn:Hdd; [|reflexivity].
      cbn [implb]. apply ctrl_eqb_same.
      apply find_some in Hf. destruct Hf as [Hc Hdc].
      apply H; assumption.
  - split; [|reflexivity]. intros _ a b Ha _ Hda _.
    rewrite (proj1 (first_dff_none cells) Hf a Ha) in Hda. discriminate.
Qed.

(** The local control slots counted in the budget are those of any
    DFF-using cell, when the DFF-using cells agree. *)
Lemma tile_budget_any_dff (this : Arch) (cells : list CellInfo) (d : CellInfo) :
  no_mismatch cells -> In d cells -> uses_dff d = true ->
  tile_budget this cells = input_sum cells + ctrl_slots this d.
Proof.
  intros Hnm Hd Hdd. unfold tile_budget.
  destruct (first_dff cells) as [c|] eqn:Hf.
  - apply find_some in Hf. destruct Hf as [Hc Hdc]. f_equal.
    apply same_ctrl_slots. apply Hnm; assumption.
  - rewrite (proj1 (first_dff_none cells) Hf d Hd) in Hdd. discriminate.
Qed.

Lemma tile_budget_no_dff (this : Arch) (cells : list CellInfo) :
  (forall d, In d cells -> uses_dff d = false) ->
  tile_budget this cells = input_sum cells.
Proof.
  intros H. unfold tile_budget.
  rewrite (proj2 (first_dff_none cells) H). lia.
Qed.

(** ** Reordering *)

Lemma input_sum_perm (l l' : list CellInfo) :
  Permutation l l' -> input_sum l = input_sum l'.
Proof.
  unfold input_sum.
  induction 1 as [|c l l' _ IH|c d l|l l' l'' _ IH1 _ IH2];
    cbn [fold_right] in *; lia.
Qed.

Lemma no_mismatch_perm (l l' : list CellInfo) :
  Permutation l l' -> no_mismatch l -> no_mismatch l'.
Proof.
  intros Hp Hnm a b Ha Hb.
  apply Hnm; apply (Permutation_in _ (Permutation_sym Hp)); assumption.
Qed.

Lemma dffs_agree_perm (l l' : list CellInfo) :
  Permutation l l' -> dffs_agree l = dffs_agree l'.
Proof.
  intros Hp.
  destruct (dffs_agree l) eqn:H1, (dffs_agree l') eqn:H2; try reflexivity.
  - apply dffs_agree_iff in H1. apply (no_mismatch_perm _ _ Hp) in H1.
    apply dffs_agree_iff in H1. congruence.
  - apply dffs_agree_iff in H2.
    apply (no_mismatch_perm _ _ (Permutation_sym Hp)) in H2.
    apply dffs_agree_iff in H2. congruence.
Qed.

Lemma tile_budget_perm (this : Arch) (l l' : list CellInfo) :
  Permutation l l' -> no_mismatch l ->
  tile_budget this l = tile_budget this l'.
Proof.
  intros Hp Hnm.
  destruct (first_dff l) as [c|] eqn:Hf.
  - apply find_some in Hf. destruct Hf as [Hc Hdc].
    rewrite (tile_budget_any_dff this l c), (tile_budget_any_dff this l' c);
      try assumption.
    + rewrite (input_sum_perm _ _ Hp). reflexivity.
    + apply (no_mismatch_perm _ _ Hp Hnm).
    + apply (Permutation_in _ Hp Hc).
  - pose proof (proj1 (first_dff_none l) Hf) as Hn.
    rewrite !tile_budget_no_dff; [apply (input_sum_perm _ _ Hp)| |assumption].
    intros d Hd. apply Hn. apply (Permutation_in _ (Permutation_sym Hp) Hd).
Qed.

Lemma Forall_lc_perm (l l' : list CellInfo) :
  Permutation l l' ->
  Forall (fun c => is_lc c = true) l -> Forall (fun c => is_lc c = true) l'.
Proof.
  intros Hp. rewrite !List.Forall_forall. intros H c Hc.
  apply H. apply (Permutation_in _ (Permutation_sym Hp) Hc).
Qed.


(** ** The budget of the tile check *)

Lemma slot_budget_closed (this : Arch) (cells : list CellInfo) :
  Forall (fun c => is_lc c = true) cells ->
  no_mismatch cells ->
  int_range (tile_budget this cells) ->
  logicCellsCompatible this cells = Ret (tile_budget this cells <=? 32).
Proof.
  intros Hlc Hnm Hr.
  rewrite logicCellsCompatible_closed by assumption.
  rewrite (proj2 (dffs_agree_iff cells) Hnm), int_wrap_id by assumption.
  reflexivity.
Qed.

(** C3, as stated, fails twice.  A single DFF-using cell with 31 inputs
    whose clock-enable and clock slots hold the same local net has a
    distinct-net budget of 32, yet the check counts the net once per
    slot, reaches 33 and rejects.  A cell with 32 inputs that uses no
    DFF but has a local net in its clock slot has a distinct-net budget
    of 33, yet the check does not look at its control nets and
    accepts. *)
Lemma distinct_net_budget_rule_fails :
  ~ distinct_net_budget_rule (sample_arch unbound)
      [dff_cell 31 (Some 1%N) (Some 1%N) nullptr false]
  /\ ~ distinct_net_budget_rule (sample_arch unbound)
         [logic_cell {| dffEnable := false; negClk := false; inputCount := 32;
                        clk := Some 1%N; cen := nullptr; sr := nullptr |}].
Proof.
  split; intros H.
  - assert (Hnm : no_mismatch [dff_cell 31 (Some 1%N) (Some 1%N) nullptr false]).
    { intros a b [<-|[]] [<-|[]] _ _. repeat split. }
    destruct (H Hnm) as [_ Hback].
    assert (Hb : distinct_net_budget (sample_arch unbound)
                   [dff_cell 31 (Some 1%N) (Some 1%N) nullptr false] <= 32)
      by (vm_compute; discriminate).
    specialize (Hback Hb). vm_compute in Hback. discriminate.
  - unfold distinct_net_budget_rule in H.
    match type of H with no_mismatch ?l -> _ =>
      assert (Hnm : no_mismatch l)
    end.
    { intros a b [<-|[]] _ Hd _. discriminate Hd. }
    destruct (H Hnm) as [Hfwd _].
    specialize (Hfwd eq_refl). vm_compute in Hfwd. apply Hfwd. reflexivity.
Qed.

(** C3, amended: over logic cells whose DFF-using cells agree, the check
    returns whether the budget is at most 32, where the budget is the
    sum of the input counts plus the number of control slots (cen, clk,
    sr) of the common control set that hold a local net: the slots of
    any DFF-using cell of the collection, counted once for the whole
    collection and once per slot, nothing when no cell uses a DFF. *)
Theorem slot_budget_rule (this : Arch) (cells : list CellInfo) :
  Forall (fun c => is_lc c = true) cells ->
  no_mismatch cells ->
  int_range (tile_budget this cells) ->
  logicCellsCompatible this cells = Ret (tile_budget this cells <=? 32)
  /\ (forall d, In d cells -> uses_dff d = true ->
        tile_budget this cells = input_sum cells + ctrl_slots this d)
  /\ ((forall d, In d cells -> uses_dff d = false) ->
        tile_budget this cells = input_sum cells).
Proof.
  intros Hlc Hnm Hr. split; [|split].
  - apply slot_budget_closed; assumption.
  - intros d Hd Hdd. apply tile_budget_any_dff; assumption.
  - apply tile_budget_no_dff.
Qed.

Lemma slot_budget_rule_witness :
  logicCellsCompatible (sample_arch unbound)
    [dff_cell 4 nullptr (Some 1%N) nullptr false;
     lut_cell 3;
     dff_cell 20 nullptr (Some 1%N) nullptr false]
  = Ret true.
Proof.
  refine (proj1 (slot_budget_rule (sample_arch unbound) _ _ _ _)).
  - repeat constructor.
  - intros a b Ha Hb Hda Hdb. cbn [In] in Ha, Hb.
    destruct Ha as [<-|[<-|[<-|[]]]]; try discriminate Hda;
    destruct Hb as [<-|[<-|[<-|[]]]]; try discriminate Hdb;
    repeat split.
  - vm_compute. split; [discriminate|reflexivity].
Defined.

(** ** Two DFF-using cells *)

Lemma in_two_dffs (l1 l2 l3 : list CellInfo) (a b d : CellInfo) :
  Forall (fun c => uses_dff c = false) (l1 ++ l2 ++ l3) ->
  In d (l1 ++ a :: l2 ++ b :: l3) -> uses_dff d = true -> d = a \/ d = b.
Proof.
  rewrite List.Forall_forall. intros Hno Hd Hdd.
  assert (Hcases : d = a \/ d = b \/ In d (l1 ++ l2 ++ l3)).
  { rewrite !in_app_iff in *. cbn [In] in Hd. rewrite in_app_iff in Hd.
    cbn [In] in Hd. intuition auto. }
  destruct Hcases as [->|[->|Hin]]; [left; reflexivity | right; reflexivity |].
  rewrite (Hno d Hin) in Hdd. discriminate.
Qed.

(** C4, as stated, fails on the budget.  Two identical DFF-using cells
    with 15 and 16 inputs whose clock-enable and clock slots hold the
    same local net have a distinct-net budget of 32, yet the check
    counts the net once per slot, reaches 33 and rejects.  Two identical
    DFF-using cells with 15 and 16 inputs on a local clock, next to a
    cell without DFF that holds another local net in its clock slot,
    have a distinct-net budget of 33, yet the check does not read the
    control nets of the third cell, stays at 32 and accepts. *)
Lemma two_dff_rule_fails :
  ~ two_dff_rule (sample_arch unbound) [] [] []
      (dff_cell 15 (Some 1%N) (Some 1%N) nullptr false)
      (dff_cell 16 (Some 1%N) (Some 1%N) nullptr false)
  /\ ~ two_dff_rule (sample_arch unbound) [] []
         [logic_cell {| dffEnable := false; negClk := false; inputCount := 0;
                        clk := Some 2%N; cen := nullptr; sr := nullptr |}]
         (dff_cell 15 nullptr (Some 1%N) nullptr false)
         (dff_cell 16 nullptr (Some 1%N) nullptr false).
Proof.
  split; intros H.
  - destruct H as [Hsame _];
      [repeat constructor | repeat constructor | reflexivity | reflexivity |].
    destruct (Hsame ltac:(repeat split)) as [_ Hback].
    assert (Hacc : logicCellsCompatible (sample_arch unbound)
                     ([] ++ dff_cell 15 (Some 1%N) (Some 1%N) nullptr false
                         :: [] ++ dff_cell 16 (Some 1%N) (Some 1%N) nullptr false
                         :: []) = Ret true).
    { apply Hback. vm_compute. discriminate. }
    vm_compute in Hacc. discriminate.
  - destruct H as [Hsame _];
      [repeat constructor | repeat constructor | reflexivity | reflexivity |].
    destruct (Hsame ltac:(repeat split)) as [Hfwd _].
    specialize (Hfwd eq_refl). vm_compute in Hfwd. apply Hfwd. reflexivity.
Qed.

(** C4, amended: in a collection of logic cells that holds the DFF-using
    cells [a] and [b], a difference between them in any of cen, clk, sr
    or negClk makes the check reject whatever the budget; when they are
    the only DFF-using cells and their control sets are identical, the
    check accepts exactly when the budget counted per control slot (the
    input counts of all cells, plus one for each of the slots cen, clk
    and sr of [a] that holds a non-null, non-global net), representable
    as an int, is at most 32. *)
Theorem two_dff_cells (this : Arch) (l1 l2 l3 : list CellInfo) (a b : CellInfo) :
  Forall (fun c => is_lc c = true) (l1 ++ a :: l2 ++ b :: l3) ->
  uses_dff a = true -> uses_dff b = true ->
  (Forall (fun c => uses_dff c = false) (l1 ++ l2 ++ l3) ->
   same_ctrl a b ->
     tile_budget this (l1 ++ a :: l2 ++ b :: l3)
     = input_sum (l1 ++ a :: l2 ++ b :: l3) + ctrl_slots this a
     /\ (int_range (tile_budget this (l1 ++ a :: l2 ++ b :: l3)) ->
         logicCellsCompatible this (l1 ++ a :: l2 ++ b :: l3)
         = Ret (tile_budget this (l1 ++ a :: l2 ++ b :: l3) <=? 32)))
  /\ (cen (lcInfo a) <> cen (lcInfo b) \/ clk (lcInfo a) <> clk (lcInfo b)
      \/ sr (lcInfo a) <> sr (lcInfo b) \/ negClk (lcInfo a) <> negClk (lcInfo b) ->
      logicCellsCompatible this (l1 ++ a :: l2 ++ b :: l3) = Ret false).
Proof.
  intros Hlc Hda Hdb.
  assert (Ha : In a (l1 ++ a :: l2 ++ b :: l3))
    by (apply in_or_app; right; left; reflexivity).
  assert (Hb : In b (l1 ++ a :: l2 ++ b :: l3)).
  { apply in_or_app; right; right. apply in_or_app; right; left; reflexivity. }
  split.
  - intros Hno Hsame.
    assert (Hnm : no_mismatch (l1 ++ a :: l2 ++ b :: l3)).
    { intros c d Hc Hd Hdc Hdd.
      destruct (in_two_dffs l1 l2 l3 a b c Hno Hc Hdc) as [->| ->];
      destruct (in_two_dffs l1 l2 l3 a b d Hno Hd Hdd) as [->| ->];
      unfold same_ctrl in *; intuition congruence. }
    split.
    + apply tile_budget_any_dff; assumption.
    + intros Hr. apply slot_budget_closed; assumption.
  - intros Hdiff. rewrite logicCellsCompatible_closed by assumption.
    destruct (dffs_agree (l1 ++ a :: l2 ++ b :: l3)) eqn:Hag; [|reflexivity].
    apply dffs_agree_iff in Hag.
    destruct (Hag a b Ha Hb Hda Hdb) as (H1 & H2 & H3 & H4).
    tauto.
Qed.

Lemma two_dff_cells_witness :
  logicCellsCompatible (sample_arch unbound)
    [lut_cell 4; dff_cell 4 nullptr (Some 3%N) (Some 3%N) true; lut_cell 4;
     dff_cell 20 nullptr (Some 3%N) (Some 3%N) true]
  = Ret true
  /\ logicCellsCompatible (sample_arch unbound)
       [lut_cell 4; dff_cell 4 nullptr (Some 1%N) (Some 3%N) true; lut_cell 4;
        dff_cell 20 nullptr (Some 1%N) (Some 3%N) true]
     = Ret false
  /\ logicCellsCompatible (sample_arch unbound)
       [dff_cell 4 nullptr (Some 1%N) (Some 3%N) true;
        dff_cell 4 nullptr (Some 1%N) (Some 3%N) false]
     = Ret false.
Proof.
  split; [|split].
  - refine (proj2 (proj1 (two_dff_cells (sample_arch unbound)
              [lut_cell 4] [lut_cell 4] []
              (dff_cell 4 nullptr (Some 3%N) (Some 3%N) true)
              (dff_cell 20 nullptr (Some 3%N) (Some 3%N) true) _ _ _) _ _) _).
    + repeat constructor.
    + reflexivity.
    + reflexivity.
    + repeat constructor.
    + repeat split.
    + vm_compute. split; [discriminate|reflexivity].
  - refine (proj2 (proj1 (two_dff_cells (sample_arch unbound)
              [lut_cell 4] [lut_cell 4] []
              (dff_cell 4 nullptr (Some 1%N) (Some 3%N) true)
              (dff_cell 20 nullptr (Some 1%N) (Some 3%N) true) _ _ _) _ _) _).
    + repeat constructor.
    + reflexivity.
    + reflexivity.
    + repeat constructor.
    + repeat split.
    + vm_compute. split; [discriminate|reflexivity].
  - refine (proj2 (two_dff_cells (sample_arch unbound) [] [] []
              (dff_cell 4 nullptr (Some 1%N) (Some 3%N) true)
              (dff_cell 4 nullptr (Some 1%N) (Some 3%N) false) _ _ _) _).
    + repeat constructor.
    + reflexivity.
    + reflexivity.
    + right; right; right. discriminate.
Defined.

(** ** Reordering the collection *)

(** C10: on logic cells, the check gives the same result for every
    reordering of the collection. *)
Theorem logicCellsCompatible_perm (this : Arch) (l l' : list CellInfo) :
  Forall (fun c => is_lc c = true) l ->
  Permutation l l' ->
  logicCellsCompatible this l = logicCellsCompatible this l'.
Proof.
  intros Hlc Hp.
  rewrite !logicCellsCompatible_closed
    by (try assumption; apply (Forall_lc_perm _ _ Hp Hlc)).
  rewrite <- (dffs_agree_perm _ _ Hp).
  destruct (dffs_agree l) eqn:Hag; [|reflexivity].
  apply dffs_agree_iff in Hag.
  rewrite (tile_budget_perm this _ _ Hp Hag). reflexivity.
Qed.

Lemma logicCellsCompatible_perm_witness :
  logicCellsCompatible (sample_arch unbound)
    [dff_cell 4 nullptr (Some 1%N) nullptr false; lut_cell 30;
     dff_cell 2 nullptr (Some 2%N) nullptr false]
  = logicCellsCompatible (sample_arch unbound)
      [lut_cell 30; dff_cell 2 nullptr (Some 2%N) nullptr false;
       dff_cell 4 nullptr (Some 1%N) nullptr false].
Proof.
  apply logicCellsCompatible_perm.
  - repeat constructor.
  - apply (Permutation_cons_append [_; _]).
Defined.

(** ** Cells of another type in the collection *)

Lemma lc_loop_app (this : Arch) (pre rest : list CellInfo) :
  Forall (fun c => is_lc c = true) pre ->
  forall st,
    lc_loop this (pre ++ rest) st
    = match lc_run this pre st with
      | None => Ret false
      | Some st' => lc_loop this rest st'
      end.
Proof.
  induction 1 as [|c pre Hc _ IH]; intros st; [reflexivity|].
  cbn [app lc_run]. rewrite lc_loop_cons by assumption.
  destruct (dff_block this st c); [apply IH | reflexivity].
Qed.

Lemma lc_run_seen (this : Arch) (pre : list CellInfo) :
  forall st,
    dffs_exist st = true ->
    completes (lc_run this pre st)
    = forallb (fun d => implb (uses_dff d) (st_matches st d)) pre.
Proof.
  induction pre as [|c pre IH]; intros st Hex; [reflexivity|].
  cbn [lc_run forallb]. rewrite dff_block_seen by assumption.
  destruct (implb (uses_dff c) (st_matches st c)); [|reflexivity].
  rewrite IH by assumption. reflexivity.
Qed.

Lemma lc_run_unseen (this : Arch) (pre : list CellInfo) :
  forall st,
    dffs_exist st = false -> dffs_neg st = false ->
    completes (lc_run this pre st) = dffs_agree pre.
Proof.
  induction pre as [|c pre IH]; intros st Hex Hneg; [reflexivity|].
  cbn [lc_run]. unfold dffs_agree. rewrite first_dff_cons.
  unfold dff_block. fold (uses_dff c).
  destruct (uses_dff c) eqn:Hd.
  - rewrite Hex. cbn [negb].
    destruct (record_dff_spec this st c Hneg) as (Hex' & Hm & _).
    rewrite lc_run_seen by assumption.
    cbn [forallb]. rewrite Hd, ctrl_eqb_refl. cbn [implb andb].
    apply forallb_pointwise. intros d. rewrite Hm. reflexivity.
  - rewrite IH by assumption. unfold dffs_agree.
    destruct (first_dff pre); [|reflexivity].
    cbn [forallb]. rewrite Hd. reflexivity.
Qed.

(** C9, as stated, fails: the mismatch of two DFF-using cells is found
    before the cell of another type is reached, and the check returns
    [false] instead of aborting. *)
Lemma foreign_cell_aborts_fails :
  ~ foreign_cell_aborts (sample_arch unbound)
      [dff_cell 1 nullptr (Some 1%N) nullptr false;
       dff_cell 1 nullptr (Some 2%N) nullptr false;
       io_cell no_io ∅].
Proof.
  intros H.
  assert (Hex : exists c,
             In c [dff_cell 1 nullptr (Some 1%N) nullptr false;
                   dff_cell 1 nullptr (Some 2%N) nullptr false;
                   io_cell no_io ∅]
             /\ type c <> id_ICESTORM_LC).
  { exists (io_cell no_io ∅). split; [right; right; left; reflexivity|].
    cbn. discriminate. }
  specialize (H Hex). vm_compute in H. discriminate.
Qed.

(** C9, amended: the tile check aborts on the first cell that is not a
    logic cell, unless the logic cells before it already hold two
    DFF-using cells that differ, in which case it returns [false]; the
    logic-cell branch of [isValidBelForCell] and [scoreBelForCell] for a
    logic cell abort on a bel that is not a logic site. *)
Theorem type_assertions (this : Arch) (pre post : list CellInfo)
    (c cell : CellInfo) (bel : BelId) :
  Forall (fun d => is_lc d = true) pre ->
  type c <> id_ICESTORM_LC ->
  type cell = id_ICESTORM_LC ->
  getBelType this bel <> id_ICESTORM_LC ->
  logicCellsCompatible this (pre ++ c :: post)
  = (if dffs_agree pre then AssertFail else Ret false)
  /\ isValidBelForCell this cell bel = AssertFail
  /\ scoreBelForCell this cell bel = AssertFail.
Proof.
  intros Hpre Hc Hcell Hbel.
  apply String.eqb_neq in Hc, Hbel.
  split; [|split].
  - unfold logicCellsCompatible. rewrite lc_loop_app by assumption.
    rewrite <- (lc_run_unseen this pre lc_init) by reflexivity.
    destruct (lc_run this pre lc_init); cbn [completes]; [|reflexivity].
    apply lc_loop_not_lc. exact Hc.
  - unfold isValidBelForCell. rewrite Hcell, Hbel. reflexivity.
  - unfold scoreBelForCell. rewrite Hcell, Hbel. reflexivity.
Qed.

Lemma type_assertions_witness :
  logicCellsCompatible (sample_arch unbound)
    [lut_cell 2; dff_cell 1 nullptr (Some 1%N) nullptr false; io_cell no_io ∅;
     lut_cell 1]
  = AssertFail
  /\ isValidBelForCell (sample_arch unbound) (lut_cell 2) 10 = AssertFail
  /\ scoreBelForCell (sample_arch unbound) (lut_cell 2) 10 = AssertFail.
Proof.
  refine (type_assertions (sample_arch unbound)
            [lut_cell 2; dff_cell 1 nullptr (Some 1%N) nullptr false]
            [lut_cell 1] (io_cell no_io ∅) (lut_cell 2) 10 _ _ _ _).
  - repeat constructor.
  - cbn. discriminate.
  - reflexivity.
  - cbn. discriminate.
Defined.

(** ** Unbound sites *)

Lemma collect_cells_unbound (this : Arch) (keep : BelId -> bool)
    (bels : list BelId) (acc : list CellInfo) :
  (forall b, In b bels -> getBoundBelCell this b = None) ->
  collect_cells this keep bels acc = Ret acc.
Proof.
  induction bels as [|b bels IH]; intros H; [reflexivity|].
  cbn [collect_cells]. rewrite (H b) by (left; reflexivity).
  apply IH. intros b' Hb'. apply H. right. exact Hb'.
Qed.

(** C1, as stated, fails: logic site 0 is unbound, but the sites 1 and
    2 of its tile hold DFF-using cells on different clocks, and the
    check of the tile rejects. *)
Lemma unbound_site_valid_fails :
  ~ unbound_site_valid
      (sample_arch
         (bind 1 (dff_cell 1 nullptr (Some 1%N) nullptr false)
            (bind 2 (dff_cell 1 nullptr (Some 2%N) nullptr false) unbound)))
      0.
Proof.
  intros H. specialize (H eq_refl). vm_compute in H. discriminate.
Qed.

Lemma collect_cells_bound_cells (this : Arch) (keep : BelId -> bool)
    (bels : list BelId) :
  forall acc : list CellInfo,
    (length acc <= 8)%nat ->
    collect_cells this keep bels acc
    = if (length acc + length (bound_cells this keep bels) <=? 8)%nat
      then Ret (acc ++ bound_cells this keep bels)
      else Undefined.
Proof.
  induction bels as [|b bels IH]; intros acc Hacc.
  - cbn [collect_cells bound_cells length]. rewrite Nat.add_0_r, app_nil_r.
    apply Nat.leb_le in Hacc. rewrite Hacc. reflexivity.
  - cbn [collect_cells bound_cells].
    destruct (getBoundBelCell this b) as [c|]; [|apply IH; exact Hacc].
    destruct (keep b); [|apply IH; exact Hacc].
    unfold array_store. cbn [length].
    destruct (Nat.ltb_spec (length acc) 8) as [Hlt|Hge].
    + cbn [mbind outcome_bind]. rewrite IH by (rewrite length_app; cbn; lia).
      rewrite length_app. cbn [length].
      replace (length acc + 1 + length (bound_cells this keep bels))%nat
        with (length acc + S (length (bound_cells this keep bels)))%nat by lia.
      rewrite <- app_assoc. reflexivity.
    + cbn [mbind outcome_bind].
      destruct (Nat.leb_spec (length acc + S (length (bound_cells this keep bels))) 8);
        [lia | reflexivity].
Qed.

Lemma isBelLocationValid_logic (this : Arch) (bel : BelId) :
  getBelType this bel = id_ICESTORM_LC ->
  isBelLocationValid this bel
  = if (length (bound_cells this all_sites (tile_of this bel)) <=? 8)%nat
    then logicCellsCompatible this (bound_cells this all_sites (tile_of this bel))
    else Undefined.
Proof.
  intros Hty. unfold isBelLocationValid. rewrite Hty.
  change (String.eqb id_ICESTORM_LC id_ICESTORM_LC) with true. cbv iota.
  fold (tile_of this bel). fold all_sites.
  rewrite collect_cells_bound_cells by (cbn; lia).
  cbn [length Nat.add app].
  destruct (_ <=? 8)%nat; reflexivity.
Qed.

(** C1, amended: for a bel with no bound cell, [isBelLocationValid]
    returns true when the bel is not a logic site; when it is a logic
    site, it returns the tile check of the cells bound to the sites of
    its tile (at most 8, the size of the array that gathers them), which
    is true when no site of the tile has a bound cell. *)
Theorem unbound_site (this : Arch) (bel : BelId) :
  getBoundBelCell this bel = None ->
  (getBelType this bel <> id_ICESTORM_LC ->
     isBelLocationValid this bel = Ret true)
  /\ (getBelType this bel = id_ICESTORM_LC ->
      ((length (bound_cells this all_sites (tile_of this bel)) <= 8)%nat ->
       isBelLocationValid this bel
       = logicCellsCompatible this
           (bound_cells this all_sites (tile_of this bel)))
      /\ ((forall b, In b (tile_of this bel) ->
                     getBoundBelCell this b = None) ->
          isBelLocationValid this bel = Ret true)).
Proof.
  intros Hfree. split.
  - intros Hty. apply String.eqb_neq in Hty.
    unfold isBelLocationValid. rewrite Hty, Hfree. reflexivity.
  - intros Hty. split.
    + intros Hlen. rewrite isBelLocationValid_logic by assumption.
      apply Nat.leb_le in Hlen. rewrite Hlen. reflexivity.
    + intros Htile. unfold isBelLocationValid. rewrite Hty.
      change (String.eqb id_ICESTORM_LC id_ICESTORM_LC) with true. cbv iota.
      fold (tile_of this bel).
      rewrite collect_cells_unbound by assumption. reflexivity.
Qed.

Lemma unbound_site_witness :
  isBelLocationValid
    (sample_arch (bind 1 (dff_cell 1 nullptr (Some 1%N) nullptr false) unbound))
    10 = Ret true
  /\ isBelLocationValid
       (sample_arch (bind 1 (dff_cell 1 nullptr (Some 1%N) nullptr false)
                       (bind 2 (lut_cell 40) unbound)))
       0 = Ret false
  /\ isBelLocationValid (sample_arch unbound) 0 = Ret true.
Proof.
  split; [|split].
  - refine (proj1 (unbound_site _ 10 _) _); [reflexivity|].
    cbn. discriminate.
  - refine (proj1 (proj2 (unbound_site
                            (sample_arch
                               (bind 1 (dff_cell 1 nullptr (Some 1%N) nullptr false)
                                  (bind 2 (lut_cell 40) unbound)))
                            0 _) _) _);
      [reflexivity | reflexivity |].
    vm_compute. lia.
  - refine (proj2 (proj2 (unbound_site _ 0 _) _) _);
      [reflexivity|reflexivity|].
    intros b _. reflexivity.
Defined.

(** ** Global buffer cells *)

Lemma gb_check_eq (this : Arch) (cell : CellInfo) (bel : BelId) (a : NetAddr) :
  type cell = id_SB_GB ->
  forPadIn (gbInfo cell) = false ->
  ports cell !! id_GLOBAL_BUFFER_OUTPUT = Some {| net := Some a |} ->
  isValidBelForCell this cell bel
  = Ret (if is_reset (net_info this a) && is_enable (net_info this a) then false
         else if is_reset (net_info this a)
              then Z.rem (getDrivenGlobalNetwork this bel) 2 =? 0
         else if is_enable (net_info this a)
              then Z.rem (getDrivenGlobalNetwork this bel) 2 =? 1
         else true).
Proof.
  intros Hty Hpad Hport.
  unfold isValidBelForCell, gb_check, port_net_at. rewrite Hty, Hpad, Hport.
  cbn.
  destruct (is_reset (net_info this a)), (is_enable (net_info this a));
    reflexivity.
Qed.

Lemma rem2_even (n : Z) : (Z.rem n 2 =? 0) = Z.even n.
Proof.
  pose proof (Z.quot_rem' n 2) as Hq.
  pose proof (Z.rem_bound_abs n 2 ltac:(lia)) as Hb.
  rewrite Hq at 2. rewrite Z.add_comm, Z.even_add_mul_2.
  assert (Hc : Z.rem n 2 = -1 \/ Z.rem n 2 = 0 \/ Z.rem n 2 = 1) by lia.
  destruct Hc as [-> | [-> | ->]]; reflexivity.
Qed.

Lemma rem2_odd (n : Z) :
  (Z.rem n 2 =? 1) = Z.odd n && (0 <=? n).
Proof.
  pose proof (Z.quot_rem' n 2) as Hq.
  pose proof (Z.rem_bound_abs n 2 ltac:(lia)) as Hb.
  assert (Hodd : Z.odd n = Z.odd (Z.rem n 2)).
  { rewrite Hq at 1. rewrite Z.add_comm, Z.odd_add_mul_2. reflexivity. }
  rewrite Hodd.
  destruct (Z.leb_spec 0 n) as [Hn | Hn].
  - pose proof (Z.rem_bound_pos n 2 Hn ltac:(lia)).
    assert (Hc : Z.rem n 2 = 0 \/ Z.rem n 2 = 1) by lia.
    destruct Hc as [-> | ->]; reflexivity.
  - pose proof (Z.rem_bound_pos_neg n 2 ltac:(lia) ltac:(lia)).
    assert (Hc : Z.rem n 2 = -1 \/ Z.rem n 2 = 0) by lia.
    destruct Hc as [-> | ->]; reflexivity.
Qed.

(** C2, as stated, fails: a buffer cell marked [forPadIn] is accepted
    before its output net is looked at. *)
Lemma reset_enable_rejected_fails :
  ~ reset_enable_rejected (sample_arch unbound) (gb_cell true (Some 4%N)).
Proof.
  intros H.
  assert (Hout : gb_output (sample_arch unbound) (gb_cell true (Some 4%N))
                   (sample_net 4%N)).
  { exists 4%N. split; reflexivity. }
  specialize (H eq_refl _ Hout eq_refl eq_refl 20).
  vm_compute in H. discriminate.
Qed.

(** C2, amended: a global buffer cell that is not [forPadIn] and whose
    output net is both reset- and enable-classified is rejected on
    every bel. *)
Theorem reset_enable_rejected_unless_pad (this : Arch) (cell : CellInfo)
    (n : NetInfo) (bel : BelId) :
  type cell = id_SB_GB ->
  forPadIn (gbInfo cell) = false ->
  gb_output this cell n ->
  is_reset n = true -> is_enable n = true ->
  isValidBelForCell this cell bel = Ret false.
Proof.
  intros Hty Hpad (a & Hport & <-) Hr He.
  rewrite (gb_check_eq this cell bel a Hty Hpad Hport), Hr, He. reflexivity.
Qed.

Lemma reset_enable_rejected_unless_pad_witness :
  isValidBelForCell (sample_arch unbound) (gb_cell false (Some 4%N)) 20
  = Ret false.
Proof.
  apply (reset_enable_rejected_unless_pad (sample_arch unbound)
           (gb_cell false (Some 4%N)) (sample_net 4%N) 20).
  - reflexivity.
  - reflexivity.
  - exists 4%N. split; reflexivity.
  - reflexivity.
  - reflexivity.
Defined.

(** C7, as stated, fails: a [forPadIn] buffer cell with a
    reset-classified output net is accepted on site 21, which drives
    the odd network 1. *)
Lemma gb_parity_only_fails :
  ~ gb_parity_only (sample_arch unbound) (gb_cell true (Some 5%N)).
Proof.
  intros H.
  assert (Hout : gb_output (sample_arch unbound) (gb_cell true (Some 5%N))
                   (sample_net 5%N)).
  { exists 5%N. split; reflexivity. }
  destruct (H eq_refl _ Hout 21 eq_refl) as [Heven _].
  specialize (Heven eq_refl eq_refl). vm_compute in Heven. discriminate.
Qed.

(** C7, amended: for a global buffer cell that is not [forPadIn], a
    reset-classified (not enable-classified) output net is accepted
    exactly on the even-indexed networks, an enable-classified (not
    reset-classified) one exactly on the odd-indexed networks of
    non-negative index, and a net that is neither on every network. *)
Theorem gb_parity (this : Arch) (cell : CellInfo) (n : NetInfo) (bel : BelId) :
  type cell = id_SB_GB ->
  forPadIn (gbInfo cell) = false ->
  gb_output this cell n ->
  (is_reset n = true -> is_enable n = false ->
     isValidBelForCell this cell bel
     = Ret (Z.even (getDrivenGlobalNetwork this bel)))
  /\ (is_enable n = true -> is_reset n = false ->
      isValidBelForCell this cell bel
      = Ret (Z.odd (getDrivenGlobalNetwork this bel)
             && (0 <=? getDrivenGlobalNetwork this bel)))
  /\ (is_reset n = false -> is_enable n = false ->
      isValidBelForCell this cell bel = Ret true).
Proof.
  intros Hty Hpad (a & Hport & <-).
  rewrite (gb_check_eq this cell bel a Hty Hpad Hport).
  repeat split; intros H1 H2; rewrite H1, H2; cbn [andb];
    rewrite ?rem2_even, ?rem2_odd; reflexivity.
Qed.

Lemma gb_parity_witness :
  isValidBelForCell (sample_arch unbound) (gb_cell false (Some 5%N)) 20
  = Ret true
  /\ isValidBelForCell (sample_arch unbound) (gb_cell false (Some 6%N)) 20
     = Ret false
  /\ isValidBelForCell (sample_arch unbound) (gb_cell false (Some 1%N)) 21
     = Ret true.
Proof.
  split; [|split].
  - refine (proj1 (gb_parity (sample_arch unbound) (gb_cell false (Some 5%N))
                     (sample_net 5%N) 20 _ _ _) _ _);
      try reflexivity.
    exists 5%N. split; reflexivity.
  - refine (proj1 (proj2 (gb_parity (sample_arch unbound)
                     (gb_cell false (Some 6%N)) (sample_net 6%N) 20 _ _ _)) _ _);
      try reflexivity.
    exists 6%N. split; reflexivity.
  - refine (proj2 (proj2 (gb_parity (sample_arch unbound)
                     (gb_cell false (Some 1%N)) (sample_net 1%N) 21 _ _ _)) _ _);
      try reflexivity.
    exists 1%N. split; reflexivity.
Defined.

(** ** The score of a site *)

Lemma count_others_filter (this : Arch) (bel : BelId) (bels : list BelId) :
  forall n : Z,
    0 <= n -> n + Z.of_nat (length bels) < 2 ^ 64 ->
    count_others this bel bels n
    = n + Z.of_nat (length (List.filter (fun b => is_bound this b && negb (b =? bel))
                              bels)).
Proof.
  induction bels as [|b bels IH]; intros n Hn Hlen.
  - cbn. lia.
  - cbn [count_others List.filter length] in *. unfold is_bound at 1.
    destruct (getBoundBelCell this b); cbn [andb].
    + destruct (negb (b =? bel)).
      * unfold size_wrap. rewrite Z.mod_small by lia.
        rewrite IH by lia. cbn [length]. lia.
      * rewrite IH by lia. reflexivity.
    + rewrite IH by lia. reflexivity.
Qed.

Lemma filter_length_le {A : Type} (f : A -> bool) (l : list A) :
  (length (List.filter f l) <= length l)%nat.
Proof.
  induction l as [|a l IH]; [apply le_n|].
  cbn [List.filter]. destruct (f a); cbn [length]; lia.
Qed.

Lemma is_bound_rebind_same (this : Arch) (b : BelId) (c : CellInfo) :
  is_bound (rebind this b c) b = true.
Proof. unfold is_bound. cbn. rewrite Z.eqb_refl. reflexivity. Qed.

Lemma is_bound_rebind_other (this : Arch) (b b' : BelId) (c : CellInfo) :
  b' <> b -> is_bound (rebind this b c) b' = is_bound this b'.
Proof.
  intros Hne. apply Z.eqb_neq in Hne. unfold is_bound. cbn.
  rewrite Hne. reflexivity.
Qed.

Lemma occupied_rebind_other (this : Arch) (bel b : BelId) (c : CellInfo)
    (bels : list BelId) :
  ~ In b bels ->
  List.filter (fun b' => is_bound (rebind this b c) b' && negb (b' =? bel)) bels
  = List.filter (fun b' => is_bound this b' && negb (b' =? bel)) bels.
Proof.
  induction bels as [|b' bels IH]; intros Hnin; [reflexivity|].
  cbn [List.filter]. rewrite IH by (intros Hin; apply Hnin; right; exact Hin).
  rewrite is_bound_rebind_other; [reflexivity|].
  intros ->. apply Hnin. left. reflexivity.
Qed.

Lemma occupied_rebind_new (this : Arch) (bel b : BelId) (c : CellInfo)
    (bels : list BelId) :
  List.NoDup bels -> In b bels -> b <> bel -> getBoundBelCell this b = None ->
  length (List.filter (fun b' => is_bound (rebind this b c) b' && negb (b' =? bel))
            bels)
  = S (length (List.filter (fun b' => is_bound this b' && negb (b' =? bel)) bels)).
Proof.
  intros Hnd Hin Hne Hfree.
  induction bels as [|b' bels IH]; [destruct Hin|].
  inversion Hnd as [|? ? Hnin Hnd']; subst.
  cbn [List.filter]. destruct (Z.eq_dec b' b) as [Heq|Hb'].
  - subst b'. rewrite occupied_rebind_other by assumption.
    rewrite is_bound_rebind_same.
    assert (Hb : is_bound this b = false) by (unfold is_bound; rewrite Hfree; reflexivity).
    rewrite Hb. apply Z.eqb_neq in Hne. rewrite Hne. reflexivity.
  - destruct Hin as [Heq|Hin]; [congruence|].
    specialize (IH Hnd' Hin).
    rewrite is_bound_rebind_other by assumption.
    destruct (is_bound this b' && negb (b' =? bel)); cbn [length];
      rewrite IH; reflexivity.
Qed.

(** C8, as stated, fails: for a logic cell without a flip-flop and the
    IO site 10, the assertion on the type of the bel fails before 8 is
    returned. *)
Lemma lut_score_is_8_fails :
  ~ lut_score_is_8 (sample_arch unbound) (lut_cell 2) 10.
Proof.
  intros H. specialize (H eq_refl eq_refl). vm_compute in H. discriminate.
Qed.

(** C8, amended: [scoreBelForCell] returns 0 for a cell that is not a
    logic cell; for a logic cell and a logic site it returns 8 when the
    cell uses no DFF, whatever the occupancy of the tile, and otherwise 8
    minus the number of sites of the tile of [bel], other than [bel],
    that have a bound cell, so that binding a cell to one more free
    sibling site lowers the score by exactly 1. *)
Theorem score_spec (this : Arch) (cell : CellInfo) (bel : BelId) :
  (type cell <> id_ICESTORM_LC -> scoreBelForCell this cell bel = Ret 0)
  /\ (type cell = id_ICESTORM_LC -> getBelType this bel = id_ICESTORM_LC ->
      (dffEnable (lcInfo cell) = false -> scoreBelForCell this cell bel = Ret 8)
      /\ (dffEnable (lcInfo cell) = true ->
          Z.of_nat (length (getBelsByTile this (x (getBelLocation this bel))
                              (y (getBelLocation this bel)))) < 2 ^ 31 ->
          scoreBelForCell this cell bel
          = Ret (8 - Z.of_nat (length (occupied_siblings this bel)))
          /\ forall b c,
               List.NoDup (getBelsByTile this (x (getBelLocation this bel))
                        (y (getBelLocation this bel))) ->
               In b (getBelsByTile this (x (getBelLocation this bel))
                       (y (getBelLocation this bel))) ->
               b <> bel -> getBoundBelCell this b = None ->
               scoreBelForCell (rebind this b c) cell bel
               = Ret (8 - Z.of_nat (length (occupied_siblings this bel)) - 1))).
Proof.
  assert (Hscore : forall this',
    type cell = id_ICESTORM_LC -> getBelType this' bel = id_ICESTORM_LC ->
    dffEnable (lcInfo cell) = true ->
    Z.of_nat (length (getBelsByTile this' (x (getBelLocation this' bel))
                        (y (getBelLocation this' bel)))) < 2 ^ 31 ->
    scoreBelForCell this' cell bel
    = Ret (8 - Z.of_nat (length (occupied_siblings this' bel)))).
  { intros this' Hty Hbel Hd Hlen. unfold scoreBelForCell.
    rewrite Hty, Hbel, Hd.
    change (String.eqb id_ICESTORM_LC id_ICESTORM_LC) with true.
    cbn [negb NPNR_ASSERT mbind outcome_bind].
    rewrite count_others_filter by lia.
    rewrite int_wrap_size_wrap. fold (occupied_siblings this' bel).
    rewrite int_wrap_id; [f_equal; lia|].
    pose proof (filter_length_le
                  (fun b => is_bound this' b && negb (b =? bel))
                  (getBelsByTile this' (x (getBelLocation this' bel))
                     (y (getBelLocation this' bel)))) as Hle.
    unfold occupied_siblings, int_range. lia. }
  split.
  - intros Hty. apply String.eqb_neq in Hty.
    unfold scoreBelForCell. rewrite Hty. reflexivity.
  - intros Hty Hbel. split.
    + intros Hd. unfold scoreBelForCell. rewrite Hty, Hbel, Hd. reflexivity.
    + intros Hd Hlen. split; [apply Hscore; assumption|].
      intros b c Hnd Hin Hne Hfree.
      rewrite (Hscore (rebind this b c)) by assumption.
      unfold occupied_siblings. cbn [rebind getBelLocation getBelsByTile].
      rewrite occupied_rebind_new by assumption.
      f_equal. lia.
Qed.

Lemma score_spec_witness :
  scoreBelForCell
    (sample_arch (bind 1 (lut_cell 2) (bind 3 (lut_cell 1) unbound)))
    (io_cell no_io ∅) 0 = Ret 0
  /\ scoreBelForCell
       (sample_arch (bind 1 (lut_cell 2) (bind 3 (lut_cell 1) unbound)))
       (lut_cell 4) 0 = Ret 8
  /\ scoreBelForCell
       (sample_arch (bind 1 (lut_cell 2) (bind 3 (lut_cell 1) unbound)))
       (dff_cell 1 nullptr (Some 1%N) nullptr false) 0 = Ret 6
  /\ scoreBelForCell
       (rebind (sample_arch (bind 1 (lut_cell 2) (bind 3 (lut_cell 1) unbound)))
          5 (lut_cell 3))
       (dff_cell 1 nullptr (Some 1%N) nullptr false) 0 = Ret 5.
Proof.
  split; [|split; [|split]].
  - refine (proj1 (score_spec _ (io_cell no_io ∅) 0) _). cbn. discriminate.
  - refine (proj1 (proj2 (score_spec _ (lut_cell 4) 0) _ _) _); reflexivity.
  - refine (proj1 (proj2 (proj2 (score_spec _
              (dff_cell 1 nullptr (Some 1%N) nullptr false) 0) _ _) _ _));
      try reflexivity.
  - refine (proj2 (proj2 (proj2 (score_spec
              (sample_arch (bind 1 (lut_cell 2) (bind 3 (lut_cell 1) unbound)))
              (dff_cell 1 nullptr (Some 1%N) nullptr false) 0) _ _) _ _)
              5 (lut_cell 3) _ _ _ _);
      try reflexivity.
    + repeat constructor; cbn; lia.
    + cbn. tauto.
    + discriminate.
Defined.

(** ** IO sites *)

Lemma io_conflict_classes (cell compCell : CellInfo) :
  io_conflict cell compCell = pair_conflict cell compCell.
Proof.
  unfold io_conflict, pair_conflict, io_conflict_at, class_conflict,
    io_use, io_nets, io_classes.
  cbn [existsb seq nth Nat.lxor fst snd].
  rewrite !orb_false_r, <- !orb_assoc. reflexivity.
Qed.

Lemma isValidBelForCell_io (this : Arch) (cell : CellInfo) (bel : BelId) :
  type cell = id_SB_IO ->
  isValidBelForCell this cell bel
  = Ret (match pll_decision this cell bel with
         | Some r => r
         | None => io_pair_check this cell bel
         end).
Proof.
  intros Hty. unfold isValidBelForCell, pll_decision. rewrite Hty.
  cbn. destruct (pll_scan _ _ _ _); reflexivity.
Qed.

Ltac case_low_bits p :=
  destruct (Z.testbit p 0), (Z.testbit p 1), (Z.testbit p 2),
    (Z.testbit p 3), (Z.testbit p 4), (Z.testbit p 5).

Lemma low6_testbit (p n : Z) :
  0 <= n < 6 -> Z.testbit (low6 p) n = Z.testbit p n.
Proof.
  intros Hn.
  assert (Hc : n = 0 \/ n = 1 \/ n = 2 \/ n = 3 \/ n = 4 \/ n = 5) by lia.
  unfold low6.
  destruct Hc as [-> | [-> | [-> | [-> | [-> | ->]]]]];
    case_low_bits p; reflexivity.
Qed.

(** A mask below 64 only reads the six low bits. *)
Lemma land_low6 (p m : Z) : 0 <= m < 64 -> Z.land p m = Z.land (low6 p) m.
Proof.
  intros Hm. apply Z.bits_inj'. intros n Hn. rewrite !Z.land_spec.
  destruct (Z.lt_ge_cases n 6) as [Hlt | Hge].
  - rewrite low6_testbit by lia. reflexivity.
  - assert (Hz : Z.testbit m n = false).
    { destruct (Z.eq_dec m 0) as [-> | Hm0]; [apply Z.bits_0|].
      apply Z.bits_above_log2; [lia|].
      apply Z.lt_le_trans with 6; [|exact Hge].
      apply Z.log2_lt_pow2; [lia|]. change (2 ^ 6) with 64. lia. }
    rewrite Hz, !andb_false_r. reflexivity.
Qed.

Lemma need_clk_in_bits (p : Z) : _io_pintype_need_clk_in p = bit0_clear p.
Proof.
  unfold _io_pintype_need_clk_in, bit0_clear.
  rewrite (land_low6 p 1) by lia. unfold low6.
  case_low_bits p; reflexivity.
Qed.

Lemma need_clk_out_bits (p : Z) : _io_pintype_need_clk_out p = out_clock_bits p.
Proof.
  unfold _io_pintype_need_clk_out, out_clock_bits.
  rewrite (land_low6 p 48), (land_low6 p 60), (land_low6 p 12) by lia.
  unfold low6. case_low_bits p; reflexivity.
Qed.

(** C5, as stated, fails: both cells need an output clock and hold
    different nets in that slot, yet site 11 is the pad input of the
    PLL on its [D_IN_0] wire and the pin scan accepts the cell before
    the shared nets are compared. *)
Lemma shared_net_rule_fails :
  ~ shared_net_rule
      (sample_arch
         (pll_on_io1 (bind 11 (out_clk_cell 1%N) (bind 10 (out_clk_cell 2%N) unbound))))
      (out_clk_cell 1%N) (out_clk_cell 2%N) 11.
Proof.
  intros H.
  specialize (H eq_refl eq_refl eq_refl eq_refl eq_refl eq_refl eq_refl).
  vm_compute in H. discriminate.
Qed.

(** C5, amended: the three need-classes are the stated bit formulas of
    the pin type; for a non-LVDS IO cell whose paired site holds a
    non-LVDS cell, when the pin scan of the [D_IN_0] wire does not decide
    the call, [isValidBelForCell] accepts exactly when no class has a
    conflict (one cell needs the class, the two net slots differ, and the
    other cell needs the class or has a net there) and the bel has a
    package pin; in particular two cells that need an output clock on
    different nets are rejected. *)
Theorem shared_nets (this : Arch) (cell compCell : CellInfo) (bel : BelId) :
  type cell = id_SB_IO ->
  lvds (ioInfo cell) = false ->
  pll_decision this cell bel = None ->
  getBoundBelCell this (paired_site this bel) = Some compCell ->
  lvds (ioInfo compCell) = false ->
  (forall p, _io_pintype_need_clk_in p = bit0_clear p
             /\ _io_pintype_need_clk_out p = out_clock_bits p
             /\ _io_pintype_need_clk_en p = bit0_clear p || out_clock_bits p)
  /\ isValidBelForCell this cell bel
     = Ret (negb (pair_conflict cell compCell) && has_package_pin this bel)
  /\ (_io_pintype_need_clk_out (pintype (ioInfo cell)) = true ->
      _io_pintype_need_clk_out (pintype (ioInfo compCell)) = true ->
      port_net cell id_OUTPUT_CLK <> port_net compCell id_OUTPUT_CLK ->
      isValidBelForCell this cell bel = Ret false).
Proof.
  intros Hty Hlv Hpll Hcomp Hclv.
  assert (Hres : isValidBelForCell this cell bel
                 = Ret (negb (pair_conflict cell compCell)
                        && has_package_pin this bel)).
  { rewrite isValidBelForCell_io, Hpll by assumption.
    unfold io_pair_check, io_pair_rejects. rewrite Hlv. fold (paired_site this bel).
    rewrite Hcomp, Hclv, io_conflict_classes.
    unfold has_package_pin.
    destruct (pair_conflict cell compCell); reflexivity. }
  split; [|split].
  - intros p. unfold _io_pintype_need_clk_en.
    rewrite need_clk_in_bits, need_clk_out_bits. repeat split.
  - exact Hres.
  - intros Ha Hb Hne. rewrite Hres.
    assert (Hc : pair_conflict cell compCell = true).
    { unfold pair_conflict, io_classes. cbn [existsb].
      apply net_eqb_neq in Hne.
      unfold class_conflict at 3. cbn [fst snd].
      rewrite Ha, Hb, Hne. cbn. rewrite orb_true_r. reflexivity. }
    rewrite Hc. reflexivity.
Qed.

Lemma shared_nets_witness :
  isValidBelForCell
    (sample_arch (bind 11 (out_clk_cell 1%N) (bind 10 (out_clk_cell 1%N) unbound)))
    (out_clk_cell 1%N) 10 = Ret true
  /\ isValidBelForCell
       (sample_arch (bind 11 (out_clk_cell 2%N) (bind 10 (out_clk_cell 1%N) unbound)))
       (out_clk_cell 1%N) 10 = Ret false.
Proof.
  split.
  - refine (proj1 (proj2 (shared_nets _ (out_clk_cell 1%N) (out_clk_cell 1%N) 10
                            _ _ _ _ _))); reflexivity.
  - refine (proj2 (proj2 (shared_nets _ (out_clk_cell 1%N) (out_clk_cell 2%N) 10
                            _ _ _ _ _)) _ _ _); try reflexivity.
    vm_compute. discriminate.
Defined.

(** C6, as stated, fails twice: an LVDS cell that reads its pad is
    accepted at sub-index 1 on the pad-input site of the PLL; and at
    sub-index 0 an LVDS cell is rejected on a site without a package
    pin although the paired site is free. *)
Lemma lvds_rule_fails :
  ~ lvds_rule (sample_arch (pll_on_io1 unbound)) lvds_input_cell 11
  /\ ~ lvds_rule (sample_arch unbound) lvds_cell 12.
Proof.
  split; intros H; destruct (H eq_refl eq_refl eq_refl) as [Hz1 Hz0].
  - assert (Hz : z (getBelLocation (sample_arch (pll_on_io1 unbound)) 11) <> 0)
      by (vm_compute; discriminate).
    specialize (Hz1 Hz). vm_compute in Hz1. discriminate.
  - destruct (Hz0 eq_refl) as [Hocc _].
    assert (Hrej : isValidBelForCell (sample_arch unbound) lvds_cell 12
                   = Ret false) by reflexivity.
    specialize (Hocc Hrej). vm_compute in Hocc. discriminate.
Qed.

(** C6, amended: for an LVDS IO cell, when the pin scan of the
    [D_IN_0] wire does not decide the call, [isValidBelForCell] rejects
    at a sub-index other than 0, and at sub-index 0 it accepts exactly
    when the paired site, at sub-index 1, is free and the bel has a
    package pin. *)
Theorem lvds_placement (this : Arch) (cell : CellInfo) (bel : BelId) :
  type cell = id_SB_IO ->
  lvds (ioInfo cell) = true ->
  pll_decision this cell bel = None ->
  (z (getBelLocation this bel) <> 0 ->
     isValidBelForCell this cell bel = Ret false)
  /\ (z (getBelLocation this bel) = 0 ->
      paired_site this bel
      = getBelByLocation this
          {| x := x (getBelLocation this bel);
             y := y (getBelLocation this bel); z := 1 |}
      /\ isValidBelForCell this cell bel
         = Ret (negb (is_bound this (paired_site this bel))
                && has_package_pin this bel)).
Proof.
  intros Hty Hlv Hpll.
  rewrite isValidBelForCell_io, Hpll by assumption.
  unfold io_pair_check, io_pair_rejects. rewrite Hlv. fold (paired_site this bel).
  split.
  - intros Hz. apply Z.eqb_neq in Hz. rewrite Hz. reflexivity.
  - intros Hz. split.
    + unfold paired_site. rewrite Hz. reflexivity.
    + rewrite Hz. cbn [Z.eqb negb]. unfold is_bound, has_package_pin.
      destruct (getBoundBelCell this (paired_site this bel)); reflexivity.
Qed.

Lemma lvds_placement_witness :
  isValidBelForCell (sample_arch unbound) lvds_cell 11 = Ret false
  /\ isValidBelForCell (sample_arch unbound) lvds_cell 10 = Ret true
  /\ isValidBelForCell (sample_arch (bind 11 (out_clk_cell 1%N) unbound))
       lvds_cell 10 = Ret false.
Proof.
  split; [|split].
  - refine (proj1 (lvds_placement _ lvds_cell 11 _ _ _) _); try reflexivity.
    vm_compute. discriminate.
  - refine (proj2 (proj2 (lvds_placement _ lvds_cell 10 _ _ _) _));
      reflexivity.
  - refine (proj2 (proj2 (lvds_placement _ lvds_cell 10 _ _ _) _));
      reflexivity.
Defined.

(** ** The scenario of the specification

    An empty logic tile of eight sites.  Cell A (DFF, clk = net 1, 4
    inputs) is legal at site 0.  With A bound, cell B (DFF, clk = net 2)
    is illegal at site 1, and cell C (DFF, clk = net 1, 20 inputs) is
    legal there, for a budget of 25.  With A and C bound, a further cell
    on the same clock with 8 inputs brings the budget to 33 and is
    rejected. *)

Example scenario_A :
  isValidBelForCell (sample_arch unbound)
    (dff_cell 4 nullptr (Some 1%N) nullptr false) 0 = Ret true.
Proof. reflexivity. Qed.

Example scenario_B :
  isValidBelForCell
    (sample_arch (bind 0 (dff_cell 4 nullptr (Some 1%N) nullptr false) unbound))
    (dff_cell 4 nullptr (Some 2%N) nullptr false) 1 = Ret false.
Proof. reflexivity. Qed.

Example scenario_C :
  isValidBelForCell
    (sample_arch (bind 0 (dff_cell 4 nullptr (Some 1%N) nullptr false) unbound))
    (dff_cell 20 nullptr (Some 1%N) nullptr false) 1 = Ret true
  /\ tile_budget (sample_arch unbound)
       [dff_cell 4 nullptr (Some 1%N) nullptr false;
        dff_cell 20 nullptr (Some 1%N) nullptr false] = 25.
Proof. split; reflexivity. Qed.

Example scenario_D :
  isValidBelForCell
    (sample_arch
       (bind 0 (dff_cell 4 nullptr (Some 1%N) nullptr false)
          (bind 1 (dff_cell 20 nullptr (Some 1%N) nullptr false) unbound)))
    (dff_cell 8 nullptr (Some 1%N) nullptr false) 2 = Ret false
  /\ isBelLocationValid
       (sample_arch
          (bind 0 (dff_cell 4 nullptr (Some 1%N) nullptr false)
             (bind 1 (dff_cell 20 nullptr (Some 1%N) nullptr false) unbound)))
       1 = Ret true.
Proof. split; reflexivity. Qed.

(** * Further properties of the code *)

(** ** The array of gathered cells *)

Lemma isValidBelForCell_logic (this : Arch) (cell : CellInfo) (bel : BelId) :
  type cell = id_ICESTORM_LC ->
  getBelType this bel = id_ICESTORM_LC ->
  isValidBelForCell this cell bel
  = if (length (bound_cells this (other_than bel) (tile_of this bel)) <? 8)%nat
    then logicCellsCompatible this
           (bound_cells this (other_than bel) (tile_of this bel) ++ [cell])
    else Undefined.
Proof.
  intros Hc Hty. unfold isValidBelForCell. rewrite Hc, Hty.
  change (String.eqb id_ICESTORM_LC id_ICESTORM_LC) with true.
  cbn [NPNR_ASSERT mbind outcome_bind].
  fold (tile_of this bel). fold (other_than bel).
  rewrite collect_cells_bound_cells by (cbn; lia).
  cbn [length Nat.add app].
  destruct (Nat.ltb_spec (length (bound_cells this (other_than bel) (tile_of this bel))) 8)
    as [Hlt|Hge].
  - assert (Hle : (length (bound_cells this (other_than bel) (tile_of this bel)) <=? 8)%nat = true)
      by (apply Nat.leb_le; lia).
    rewrite Hle. cbn [mbind outcome_bind]. unfold array_store.
    apply Nat.ltb_lt in Hlt. rewrite Hlt. reflexivity.
  - destruct (Nat.leb_spec (length (bound_cells this (other_than bel) (tile_of this bel))) 8)
      as [Hle|Hgt]; [|reflexivity].
    cbn [mbind outcome_bind]. unfold array_store.
    assert (Hnlt : (length (bound_cells this (other_than bel) (tile_of this bel)) <? 8)%nat = false)
      by (apply Nat.ltb_ge; lia).
    rewrite Hnlt. reflexivity.
Qed.

(** X1: on a logic site, [isBelLocationValid] is the tile check of the
    cells bound in the tile, in the order of the tile, as long as they
    are at most 8; with more than 8 bound cells the gathering loop
    stores past the end of [bel_cells]. *)
Theorem tile_validity_array (this : Arch) (bel : BelId) :
  getBelType this bel = id_ICESTORM_LC ->
  ((length (bound_cells this all_sites (tile_of this bel)) <= 8)%nat ->
   isBelLocationValid this bel
   = logicCellsCompatible this (bound_cells this all_sites (tile_of this bel)))
  /\ ((8 < length (bound_cells this all_sites (tile_of this bel)))%nat ->
      isBelLocationValid this bel = Undefined).
Proof.
  intros Hty. rewrite isBelLocationValid_logic by assumption.
  split; intros Hlen.
  - apply Nat.leb_le in Hlen. rewrite Hlen. reflexivity.
  - apply Nat.leb_gt in Hlen. rewrite Hlen. reflexivity.
Qed.

Lemma tile_validity_array_witness :
  isBelLocationValid (sample_arch all_bound) 0 = Ret true
  /\ isBelLocationValid
       (with_tile (sample_arch all_bound) [0; 1; 2; 3; 4; 5; 6; 7; 8]) 0
     = Undefined.
Proof.
  split.
  - refine (proj1 (tile_validity_array (sample_arch all_bound) 0 _) _).
    + reflexivity.
    + vm_compute. lia.
  - refine (proj2 (tile_validity_array
                     (with_tile (sample_arch all_bound) [0; 1; 2; 3; 4; 5; 6; 7; 8])
                     0 _) _).
    + reflexivity.
    + vm_compute. lia.
Defined.

(** X2: for a logic cell and a logic site, [isValidBelForCell] is the
    tile check of the cells bound to the other sites of the tile followed
    by the cell itself, as long as the others are at most 7; with 8 or
    more the cell, or one of the others, is stored past the end of
    [bel_cells]. *)
Theorem logic_placement_array (this : Arch) (cell : CellInfo) (bel : BelId) :
  type cell = id_ICESTORM_LC ->
  getBelType this bel = id_ICESTORM_LC ->
  ((length (bound_cells this (other_than bel) (tile_of this bel)) < 8)%nat ->
   isValidBelForCell this cell bel
   = logicCellsCompatible this
       (bound_cells this (other_than bel) (tile_of this bel) ++ [cell]))
  /\ ((8 <= length (bound_cells this (other_than bel) (tile_of this bel)))%nat ->
      isValidBelForCell this cell bel = Undefined).
Proof.
  intros Hc Hty. rewrite isValidBelForCell_logic by assumption.
  split; intros Hlen.
  - apply Nat.ltb_lt in Hlen. rewrite Hlen. reflexivity.
  - apply Nat.ltb_ge in Hlen. rewrite Hlen. reflexivity.
Qed.

Lemma logic_placement_array_witness :
  isValidBelForCell (sample_arch all_bound) (lut_cell 4) 0 = Ret true
  /\ isValidBelForCell
       (with_tile (sample_arch all_bound) [0; 1; 2; 3; 4; 5; 6; 7; 8])
       (lut_cell 4) 0
     = Undefined.
Proof.
  split.
  - refine (proj1 (logic_placement_array (sample_arch all_bound)
                     (lut_cell 4) 0 _ _) _).
    + reflexivity.
    + reflexivity.
    + vm_compute. lia.
  - refine (proj2 (logic_placement_array
                     (with_tile (sample_arch all_bound) [0; 1; 2; 3; 4; 5; 6; 7; 8])
                     (lut_cell 4) 0 _ _) _).
    + reflexivity.
    + reflexivity.
    + vm_compute. lia.
Defined.

(** ** The check before and after a binding *)

Lemma lc_verdict_closed (this : Arch) (cells : list CellInfo) :
  Forall (fun c => is_lc c = true) cells ->
  logicCellsCompatible this cells = Ret (lc_verdict this cells).
Proof. apply logicCellsCompatible_closed. Qed.

Lemma lc_verdict_perm (this : Arch) (l l' : list CellInfo) :
  Permutation l l' -> lc_verdict this l = lc_verdict this l'.
Proof.
  intros Hp. unfold lc_verdict. rewrite <- (dffs_agree_perm _ _ Hp).
  destruct (dffs_agree l) eqn:Hag; [|reflexivity].
  apply dffs_agree_iff in Hag.
  rewrite (tile_budget_perm this _ _ Hp Hag). reflexivity.
Qed.

Lemma bound_cells_in (this : Arch) (keep : BelId -> bool) (bels : list BelId)
    (c : CellInfo) :
  In c (bound_cells this keep bels) ->
  exists b, In b bels /\ keep b = true /\ getBoundBelCell this b = Some c.
Proof.
  induction bels as [|b bels IH]; cbn [bound_cells]; [intros []|].
  destruct (getBoundBelCell this b) as [d|] eqn:Hb.
  - destruct (keep b) eqn:Hk.
    + intros [<-|Hin].
      * exists b. repeat split; [left; reflexivity | assumption | assumption].
      * destruct (IH Hin) as (b' & Hb' & Hk' & Hc).
        exists b'. repeat split; [right|..]; assumption.
    + intros Hin. destruct (IH Hin) as (b' & Hb' & Hk' & Hc).
      exists b'. repeat split; [right|..]; assumption.
  - intros Hin. destruct (IH Hin) as (b' & Hb' & Hk' & Hc).
    exists b'. repeat split; [right|..]; assumption.
Qed.

Lemma getBoundBelCell_rebind (this : Arch) (bel b : BelId) (c : CellInfo) :
  getBoundBelCell (rebind this bel c) b
  = if b =? bel then Some c else getBoundBelCell this b.
Proof. reflexivity. Qed.

Lemma bound_cells_rebind_absent (this : Arch) (keep : BelId -> bool)
    (bel : BelId) (c : CellInfo) (bels : list BelId) :
  ~ In bel bels ->
  bound_cells (rebind this bel c) keep bels = bound_cells this keep bels.
Proof.
  induction bels as [|b bels IH]; intros Hnin; [reflexivity|].
  cbn [bound_cells]. rewrite getBoundBelCell_rebind.
  assert (Hne : (b =? bel) = false).
  { apply Z.eqb_neq. intros ->. apply Hnin. left. reflexivity. }
  rewrite Hne, IH by (intros Hin; apply Hnin; right; exact Hin).
  reflexivity.
Qed.

Lemma bound_cells_other_than_absent (this : Arch) (bel : BelId)
    (bels : list BelId) :
  ~ In bel bels ->
  bound_cells this (other_than bel) bels = bound_cells this all_sites bels.
Proof.
  induction bels as [|b bels IH]; intros Hnin; [reflexivity|].
  cbn [bound_cells]. unfold other_than at 1. unfold all_sites at 1.
  assert (Hne : (b =? bel) = false).
  { apply Z.eqb_neq. intros ->. apply Hnin. left. reflexivity. }
  rewrite Hne, IH by (intros Hin; apply Hnin; right; exact Hin).
  reflexivity.
Qed.

(** Binding a cell to a site of the tile adds it to the cells gathered
    from the other sites. *)
Lemma bound_cells_rebind_perm (this : Arch) (bel : BelId) (c : CellInfo)
    (bels : list BelId) :
  List.NoDup bels -> In bel bels ->
  Permutation (bound_cells (rebind this bel c) all_sites bels)
    (c :: bound_cells this (other_than bel) bels).
Proof.
  induction bels as [|b bels IH]; intros Hnd Hin; [destruct Hin|].
  inversion Hnd as [|? ? Hnin Hnd']; subst.
  cbn [bound_cells]. rewrite getBoundBelCell_rebind.
  unfold other_than at 1. unfold all_sites at 1.
  destruct (Z.eqb_spec b bel) as [->|Hne].
  - cbn [negb].
    rewrite bound_cells_rebind_absent by assumption.
    rewrite <- (bound_cells_other_than_absent this bel) by assumption.
    destruct (getBoundBelCell this bel); apply Permutation_refl.
  - destruct Hin as [Heq|Hin]; [congruence|].
    specialize (IH Hnd' Hin). cbn [negb].
    destruct (getBoundBelCell this b) as [d|]; [|exact IH].
    apply Permutation_trans with (d :: c :: bound_cells this (other_than bel) bels).
    + apply perm_skip. exact IH.
    + apply perm_swap.
Qed.

Lemma collect_cells_rebind_self (this : Arch) (bel : BelId) (c : CellInfo)
    (bels : list BelId) :
  forall acc,
    collect_cells (rebind this bel c) (fun bel_other => negb (bel_other =? bel))
      bels acc
    = collect_cells this (fun bel_other => negb (bel_other =? bel)) bels acc.
Proof.
  induction bels as [|b bels IH]; intros acc; [reflexivity|].
  cbn [collect_cells]. rewrite getBoundBelCell_rebind.
  destruct (Z.eqb_spec b bel) as [->|Hne]; cbn [negb].
  - rewrite IH. destruct (getBoundBelCell this bel); reflexivity.
  - destruct (getBoundBelCell this b) as [d|]; [|apply IH].
    destruct (array_store acc d); cbn [mbind outcome_bind];
      [apply IH | reflexivity..].
Qed.

Lemma count_others_rebind_self (this : Arch) (bel : BelId) (c : CellInfo)
    (bels : list BelId) :
  forall n,
    count_others (rebind this bel c) bel bels n = count_others this bel bels n.
Proof.
  induction bels as [|b bels IH]; intros n; [reflexivity|].
  cbn [count_others]. rewrite getBoundBelCell_rebind.
  destruct (Z.eqb_spec b bel) as [->|Hne]; cbn [negb].
  - rewrite IH. destruct (getBoundBelCell this bel); reflexivity.
  - destruct (getBoundBelCell this b); apply IH.
Qed.

(** X3: the check of a placement before it is made agrees with the
    check of the site after it: for a logic cell and a logic site listed
    once in its tile, whose other bound sites hold logic cells,
    [isValidBelForCell] on the current bindings returns what
    [isBelLocationValid] returns once the cell is bound to the site. *)
Theorem placement_then_validity (this : Arch) (cell : CellInfo) (bel : BelId) :
  type cell = id_ICESTORM_LC ->
  getBelType this bel = id_ICESTORM_LC ->
  List.NoDup (tile_of this bel) ->
  In bel (tile_of this bel) ->
  (forall b c, In b (tile_of this bel) -> b <> bel ->
               getBoundBelCell this b = Some c -> type c = id_ICESTORM_LC) ->
  isValidBelForCell this cell bel
  = isBelLocationValid (rebind this bel cell) bel.
Proof.
  intros Hc Hty Hnd Hin Hothers.
  rewrite isValidBelForCell_logic by assumption.
  rewrite isBelLocationValid_logic by exact Hty.
  change (tile_of (rebind this bel cell) bel) with (tile_of this bel).
  pose proof (bound_cells_rebind_perm this bel cell _ Hnd Hin) as Hp.
  rewrite (Permutation_length Hp). cbn [length].
  change (S (length (bound_cells this (other_than bel) (tile_of this bel)))
          <=? 8)%nat
    with (length (bound_cells this (other_than bel) (tile_of this bel)) <? 8)%nat.
  destruct (_ <? 8)%nat; [|reflexivity].
  assert (Hlc : Forall (fun c => is_lc c = true)
                  (bound_cells this (other_than bel) (tile_of this bel) ++ [cell])).
  { apply Forall_app. split.
    - apply List.Forall_forall. intros c Hin'.
      destruct (bound_cells_in _ _ _ _ Hin') as (b & Hb & Hk & Hbc).
      unfold other_than in Hk. apply negb_true_iff, Z.eqb_neq in Hk.
      unfold is_lc. rewrite (Hothers b c Hb Hk Hbc). reflexivity.
    - constructor; [|constructor]. unfold is_lc. rewrite Hc. reflexivity. }
  assert (Hp' : Permutation
                  (bound_cells this (other_than bel) (tile_of this bel) ++ [cell])
                  (bound_cells (rebind this bel cell) all_sites (tile_of this bel))).
  { apply Permutation_trans
      with (cell :: bound_cells this (other_than bel) (tile_of this bel)).
    - apply Permutation_sym, Permutation_cons_append.
    - apply Permutation_sym, Hp. }
  rewrite !lc_verdict_closed
    by (try assumption; apply (Forall_lc_perm _ _ Hp' Hlc)).
  rewrite (lc_verdict_perm _ _ _ Hp'). reflexivity.
Qed.

Lemma placement_then_validity_witness :
  isValidBelForCell
    (sample_arch (bind 0 (dff_cell 4 nullptr (Some 1%N) nullptr false) unbound))
    (dff_cell 20 nullptr (Some 1%N) nullptr false) 1
  = isBelLocationValid
      (rebind
         (sample_arch (bind 0 (dff_cell 4 nullptr (Some 1%N) nullptr false) unbound))
         1 (dff_cell 20 nullptr (Some 1%N) nullptr false))
      1.
Proof.
  apply placement_then_validity.
  - reflexivity.
  - reflexivity.
  - repeat constructor; cbn; lia.
  - cbn. tauto.
  - intros b c _ _. cbn. unfold bind, unbound.
    destruct (b =? 0); [|discriminate].
    intros H. inversion H. reflexivity.
Defined.

(** The tile check reads the context through the net store only. *)
Lemma logicCellsCompatible_same_nets (this this' : Arch) (cells : list CellInfo) :
  net_info this = net_info this' ->
  logicCellsCompatible this cells = logicCellsCompatible this' cells.
Proof.
  intros Hn. unfold logicCellsCompatible. generalize lc_init.
  induction cells as [|c cells IH]; intros st; [reflexivity|].
  cbn [lc_loop].
  assert (Hb : dff_block this st c = dff_block this' st c).
  { unfold dff_block, record_dff, is_local. rewrite Hn. reflexivity. }
  rewrite Hb. destruct (NPNR_ASSERT _); cbn [mbind outcome_bind];
    try reflexivity.
  destruct (dff_block this' st c); [apply IH | reflexivity].
Qed.

(** X4: for a logic cell, what is bound to the candidate site itself
    plays no part: [isValidBelForCell] and [scoreBelForCell] return the
    same whatever cell the site holds. *)
Theorem own_occupant_ignored (this : Arch) (cell c : CellInfo) (bel : BelId) :
  (type cell = id_ICESTORM_LC ->
   isValidBelForCell (rebind this bel c) cell bel
   = isValidBelForCell this cell bel)
  /\ scoreBelForCell (rebind this bel c) cell bel
     = scoreBelForCell this cell bel.
Proof.
  split.
  - intros Hc. unfold isValidBelForCell. rewrite Hc.
    change (String.eqb id_ICESTORM_LC id_ICESTORM_LC) with true. cbv iota.
    change (getBelType (rebind this bel c) bel) with (getBelType this bel).
    change (getBelLocation (rebind this bel c) bel) with (getBelLocation this bel).
    change (getBelsByTile (rebind this bel c)) with (getBelsByTile this).
    destruct (NPNR_ASSERT _); cbn [mbind outcome_bind]; try reflexivity.
    rewrite collect_cells_rebind_self.
    destruct (collect_cells this _ _ _); cbn [mbind outcome_bind];
      try reflexivity.
    destruct (array_store _ _); cbn [mbind outcome_bind]; try reflexivity.
    apply logicCellsCompatible_same_nets. reflexivity.
  - unfold scoreBelForCell.
    change (getBelType (rebind this bel c) bel) with (getBelType this bel).
    change (getBelLocation (rebind this bel c) bel) with (getBelLocation this bel).
    change (getBelsByTile (rebind this bel c)) with (getBelsByTile this).
    rewrite count_others_rebind_self. reflexivity.
Qed.

Lemma own_occupant_ignored_witness :
  isValidBelForCell
    (rebind (sample_arch unbound) 0 (dff_cell 4 nullptr (Some 2%N) nullptr false))
    (dff_cell 4 nullptr (Some 1%N) nullptr false) 0
  = isValidBelForCell (sample_arch unbound)
      (dff_cell 4 nullptr (Some 1%N) nullptr false) 0.
Proof.
  apply (proj1 (own_occupant_ignored (sample_arch unbound)
                  (dff_cell 4 nullptr (Some 1%N) nullptr false)
                  (dff_cell 4 nullptr (Some 2%N) nullptr false) 0)).
  reflexivity.
Defined.

(** ** The budget and the removal of a cell *)

Lemma ctrl_slots_bounds (this : Arch) (c : CellInfo) :
  0 <= ctrl_slots this c <= 3.
Proof.
  unfold ctrl_slots.
  destruct (is_local this (cen (lcInfo c))), (is_local this (clk (lcInfo c))),
    (is_local this (sr (lcInfo c))); cbn; lia.
Qed.

Lemma tile_budget_bounds (this : Arch) (cells : list CellInfo) :
  input_sum cells <= tile_budget this cells <= input_sum cells + 3.
Proof.
  unfold tile_budget. destruct (first_dff cells) as [c|]; [|lia].
  pose proof (ctrl_slots_bounds this c). lia.
Qed.

Lemma input_sum_app (l l' : list CellInfo) :
  input_sum (l ++ l') = input_sum l + input_sum l'.
Proof.
  unfold input_sum. induction l as [|c l IH]; cbn [app fold_right]; lia.
Qed.

Lemma input_sum_nonneg (l : list CellInfo) :
  Forall (fun d => 0 <= inputCount (lcInfo d)) l -> 0 <= input_sum l.
Proof.
  unfold input_sum. induction 1; cbn [fold_right]; lia.
Qed.

Lemma in_remove_middle {A : Type} (l1 l2 : list A) (c d : A) :
  In d (l1 ++ l2) -> In d (l1 ++ c :: l2).
Proof.
  rewrite !in_app_iff. cbn [In]. tauto.
Qed.

Lemma slot_budget_closed_true (this : Arch) (cells : list CellInfo) :
  Forall (fun c => is_lc c = true) cells ->
  no_mismatch cells ->
  int_range (tile_budget this cells) ->
  tile_budget this cells <= 32 ->
  logicCellsCompatible this cells = Ret true.
Proof.
  intros Hlc Hnm Hr Hle.
  rewrite slot_budget_closed by assumption.
  apply Z.leb_le in Hle. rewrite Hle. reflexivity.
Qed.

(** X5: taking a cell out of a collection that the tile check accepts
    leaves a collection that it accepts, for logic cells with
    non-negative input counts and a budget that fits an int. *)
Theorem removal_keeps_compatible (this : Arch) (l1 l2 : list CellInfo)
    (c : CellInfo) :
  Forall (fun d => is_lc d = true) (l1 ++ c :: l2) ->
  Forall (fun d => 0 <= inputCount (lcInfo d)) (l1 ++ c :: l2) ->
  int_range (tile_budget this (l1 ++ c :: l2)) ->
  logicCellsCompatible this (l1 ++ c :: l2) = Ret true ->
  logicCellsCompatible this (l1 ++ l2) = Ret true.
Proof.
  intros Hlc Hpos Hr Hres.
  rewrite logicCellsCompatible_closed in Hres by assumption.
  inversion Hres as [Hv]. apply andb_true_iff in Hv. destruct Hv as [Hag Hle].
  rewrite Hag, Hle. rewrite int_wrap_id in Hle by assumption.
  apply Z.leb_le in Hle. apply dffs_agree_iff in Hag.
  assert (Hlc' : Forall (fun d => is_lc d = true) (l1 ++ l2)).
  { rewrite List.Forall_forall in *. intros d Hd.
    apply Hlc, in_remove_middle, Hd. }
  assert (Hpos' : Forall (fun d => 0 <= inputCount (lcInfo d)) (l1 ++ l2)).
  { rewrite List.Forall_forall in *. intros d Hd.
    apply Hpos, in_remove_middle, Hd. }
  assert (Hc : 0 <= inputCount (lcInfo c)).
  { rewrite List.Forall_forall in Hpos. apply Hpos.
    apply in_or_app. right. left. reflexivity. }
  assert (Hnm' : no_mismatch (l1 ++ l2)).
  { intros a b Ha Hb. apply Hag; apply in_remove_middle; assumption. }
  assert (Hsum : input_sum (l1 ++ c :: l2)
                 = input_sum (l1 ++ l2) + inputCount (lcInfo c)).
  { rewrite !input_sum_app. unfold input_sum at 2. cbn [fold_right].
    fold (input_sum l2). lia. }
  assert (Hbud : tile_budget this (l1 ++ l2) <= tile_budget this (l1 ++ c :: l2)).
  { destruct (first_dff (l1 ++ l2)) as [d|] eqn:Hf.
    - apply find_some in Hf. destruct Hf as [Hd Hdd].
      rewrite (tile_budget_any_dff this (l1 ++ l2) d),
        (tile_budget_any_dff this (l1 ++ c :: l2) d);
        try assumption; [lia|]. apply in_remove_middle, Hd.
    - rewrite (tile_budget_no_dff this (l1 ++ l2))
        by (apply first_dff_none; exact Hf).
      pose proof (tile_budget_bounds this (l1 ++ c :: l2)). lia. }
  pose proof (input_sum_nonneg _ Hpos') as Hnn.
  pose proof (tile_budget_bounds this (l1 ++ l2)) as Hb'.
  apply slot_budget_closed_true; try assumption.
  - unfold int_range in *. lia.
  - lia.
Qed.

Lemma removal_keeps_compatible_witness :
  logicCellsCompatible (sample_arch unbound)
    [dff_cell 4 nullptr (Some 1%N) nullptr false;
     dff_cell 20 nullptr (Some 1%N) nullptr false]
  = Ret true.
Proof.
  apply (removal_keeps_compatible (sample_arch unbound)
           [dff_cell 4 nullptr (Some 1%N) nullptr false]
           [dff_cell 20 nullptr (Some 1%N) nullptr false]
           (lut_cell 7)).
  - repeat constructor.
  - repeat constructor; cbn; lia.
  - vm_compute. split; [discriminate|reflexivity].
  - reflexivity.
Defined.

(** X6: the control nets cost at most 3: the budget of a collection
    lies between the sum of the input counts and that sum plus 3, so
    that logic cells whose DFF-using cells agree are accepted whenever
    their input counts sum to at most 29 and rejected whenever they sum
    to more than 32. *)
Theorem control_nets_cost (this : Arch) (cells : list CellInfo) :
  Forall (fun c => is_lc c = true) cells ->
  no_mismatch cells ->
  - 2 ^ 31 <= input_sum cells < 2 ^ 31 - 3 ->
  input_sum cells <= tile_budget this cells <= input_sum cells + 3
  /\ (input_sum cells <= 29 -> logicCellsCompatible this cells = Ret true)
  /\ (32 < input_sum cells -> logicCellsCompatible this cells = Ret false).
Proof.
  intros Hlc Hnm Hr.
  pose proof (tile_budget_bounds this cells) as Hb.
  assert (Hir : int_range (tile_budget this cells))
    by (unfold int_range; lia).
  split; [exact Hb|]. rewrite slot_budget_closed by assumption.
  split; intros Hs; f_equal.
  - apply Z.leb_le. lia.
  - apply Z.leb_gt. lia.
Qed.

Lemma control_nets_cost_witness :
  logicCellsCompatible (sample_arch unbound)
    [dff_cell 9 (Some 1%N) (Some 2%N) (Some 1%N) false; lut_cell 20]
  = Ret true
  /\ logicCellsCompatible (sample_arch unbound)
       [dff_cell 13 nullptr (Some 3%N) nullptr false; lut_cell 20]
     = Ret false.
Proof.
  split.
  - refine (proj1 (proj2 (control_nets_cost (sample_arch unbound)
              [dff_cell 9 (Some 1%N) (Some 2%N) (Some 1%N) false; lut_cell 20]
              _ _ _)) _).
    + repeat constructor.
    + intros a b [<-|[<-|[]]] [<-|[<-|[]]] Ha Hb;
        try discriminate Ha; try discriminate Hb; repeat split.
    + vm_compute. split; [discriminate|reflexivity].
    + vm_compute. discriminate.
  - refine (proj2 (proj2 (control_nets_cost (sample_arch unbound)
              [dff_cell 13 nullptr (Some 3%N) nullptr false; lut_cell 20]
              _ _ _)) _).
    + repeat constructor.
    + intros a b [<-|[<-|[]]] [<-|[<-|[]]] Ha Hb;
        try discriminate Ha; try discriminate Hb; repeat split.
    + vm_compute. split; [discriminate|reflexivity].
    + vm_compute. reflexivity.
Defined.

(** ** Bounds of the score *)

Lemma filter_length_lt {A : Type} (f : A -> bool) (l : list A) (a : A) :
  In a l -> f a = false -> (length (List.filter f l) < length l)%nat.
Proof.
  induction l as [|b l IH]; [intros []|].
  intros [->|Hin] Hf; cbn [List.filter length].
  - rewrite Hf. pose proof (filter_length_le f l). lia.
  - specialize (IH Hin Hf). destruct (f b); cbn [length]; lia.
Qed.

Lemma scoreBelForCell_logic (this : Arch) (cell : CellInfo) (bel : BelId) :
  type cell = id_ICESTORM_LC ->
  getBelType this bel = id_ICESTORM_LC ->
  Z.of_nat (length (tile_of this bel)) < 2 ^ 31 ->
  scoreBelForCell this cell bel
  = Ret (if dffEnable (lcInfo cell)
         then 8 - Z.of_nat (length (occupied_siblings this bel))
         else 8).
Proof.
  intros Hty Hbel Hlen. unfold scoreBelForCell. rewrite Hty, Hbel.
  change (String.eqb id_ICESTORM_LC id_ICESTORM_LC) with true.
  cbn [negb NPNR_ASSERT mbind outcome_bind].
  destruct (dffEnable (lcInfo cell)); [|reflexivity]. cbn [negb].
  unfold tile_of in Hlen.
  rewrite count_others_filter by lia.
  rewrite int_wrap_size_wrap. fold (occupied_siblings this bel).
  rewrite int_wrap_id; [f_equal; lia|].
  pose proof (filter_length_le
                (fun b => is_bound this b && negb (b =? bel))
                (getBelsByTile this (x (getBelLocation this bel))
                   (y (getBelLocation this bel)))) as Hle.
  unfold occupied_siblings, int_range. lia.
Qed.

(** X7: for a logic cell and a logic site, the score is at most 8 and at
    least 8 minus the number of sites of the tile; when the site is one
    of the sites of its tile it does not count itself, so that in a tile
    of 8 sites the score lies between 1 and 8. *)
Theorem score_bounds (this : Arch) (cell : CellInfo) (bel : BelId) :
  type cell = id_ICESTORM_LC ->
  getBelType this bel = id_ICESTORM_LC ->
  Z.of_nat (length (tile_of this bel)) < 2 ^ 31 ->
  exists s,
    scoreBelForCell this cell bel = Ret s
    /\ 8 - Z.of_nat (length (tile_of this bel)) <= s <= 8
    /\ (In bel (tile_of this bel) ->
        9 - Z.of_nat (length (tile_of this bel)) <= s).
Proof.
  intros Hty Hbel Hlen.
  rewrite scoreBelForCell_logic by assumption.
  eexists. split; [reflexivity|].
  pose proof (filter_length_le
                (fun b => is_bound this b && negb (b =? bel))
                (tile_of this bel)) as Hle.
  change (length (occupied_siblings this bel) <= length (tile_of this bel))%nat
    in Hle.
  split.
  - destruct (dffEnable (lcInfo cell)); lia.
  - intros Hin.
    assert (Hlt : (length (occupied_siblings this bel)
                   < length (tile_of this bel))%nat).
    { unfold occupied_siblings. fold (tile_of this bel).
      apply (filter_length_lt _ _ bel Hin).
      rewrite Z.eqb_refl. apply andb_false_r. }
    destruct (dffEnable (lcInfo cell)); lia.
Qed.

Lemma score_bounds_witness :
  exists s,
    scoreBelForCell (sample_arch all_bound)
      (dff_cell 1 nullptr (Some 1%N) nullptr false) 0 = Ret s
    /\ 8 - 8 <= s <= 8
    /\ (In 0 [0; 1; 2; 3; 4; 5; 6; 7] -> 9 - 8 <= s).
Proof.
  apply (score_bounds (sample_arch all_bound)
           (dff_cell 1 nullptr (Some 1%N) nullptr false) 0).
  - reflexivity.
  - reflexivity.
  - vm_compute. reflexivity.
Defined.

(** ** The pin scan of an IO site *)

Lemma pll_scan_skip (this : Arch) (cell : CellInfo) (bel : BelId)
    (pre rest : list BelPin) :
  Forall (fun pin => is_pllout pin = false) pre ->
  pll_scan this cell bel (pre ++ rest) = pll_scan this cell bel rest.
Proof.
  induction 1 as [|pin pre Hp _ IH]; [reflexivity|].
  cbn [app pll_scan]. unfold is_pllout in Hp. rewrite Hp. exact IH.
Qed.

Lemma pll_scan_output (this : Arch) (cell : CellInfo) (bel : BelId)
    (pin : BelPin) (post : list BelPin) :
  is_pllout pin = true ->
  pll_scan this cell bel (pin :: post)
  = match getBoundBelCell this (BelPin_bel pin) with
    | None => None
    | Some pll_cell =>
      if String.eqb (BelPin_pin pin) id_PLLOUT_B
         && negb (is_sb_pll40_dual this pll_cell) then None
      else if negb (reads_pad cell) then None
      else Some (String.eqb (attr pll_cell (id "BEL_PAD_INPUT"))
                   (getBelName this bel))
    end.
Proof.
  intros Hp. cbn [pll_scan]. unfold is_pllout in Hp. rewrite Hp.
  destruct (getBoundBelCell this (BelPin_bel pin)) as [pll_cell|];
    [|reflexivity].
  destruct (String.eqb (BelPin_pin pin) id_PLLOUT_B
            && negb (is_sb_pll40_dual this pll_cell)); [reflexivity|].
  unfold reads_pad. rewrite negb_involutive.
  destruct (net_eqb (port_net cell id_D_IN_0) nullptr
            && net_eqb (port_net cell id_D_IN_1) nullptr); [reflexivity|].
  destruct (String.eqb (attr pll_cell (id "BEL_PAD_INPUT"))
              (getBelName this bel)); reflexivity.
Qed.

(** X8: the pin scan decides on the first PLL output pin of the wire
    and never looks at the pins after it; on a wire without PLL output
    pin it decides nothing. *)
Theorem pll_scan_first_output (this : Arch) (cell : CellInfo) (bel : BelId)
    (pre post : list BelPin) (pin : BelPin) :
  Forall (fun p => is_pllout p = false) pre ->
  pll_scan this cell bel pre = None
  /\ (is_pllout pin = true ->
      pll_scan this cell bel (pre ++ pin :: post)
      = pll_scan this cell bel [pin]).
Proof.
  intros Hpre. split.
  - rewrite <- (app_nil_r pre), pll_scan_skip by assumption. reflexivity.
  - intros Hp. rewrite pll_scan_skip by assumption.
    rewrite !pll_scan_output by assumption. reflexivity.
Qed.

Lemma pll_scan_first_output_witness :
  pll_scan (sample_arch (pll_on_io1 unbound)) lvds_input_cell 11
    [ {| BelPin_bel := 11; BelPin_pin := id_D_IN_0 |};
      {| BelPin_bel := 22; BelPin_pin := id_PLLOUT_A |};
      {| BelPin_bel := 22; BelPin_pin := id_PLLOUT_B |} ]
  = pll_scan (sample_arch (pll_on_io1 unbound)) lvds_input_cell 11
      [ {| BelPin_bel := 22; BelPin_pin := id_PLLOUT_A |} ].
Proof.
  refine (proj2 (pll_scan_first_output (sample_arch (pll_on_io1 unbound))
                   lvds_input_cell 11
                   [ {| BelPin_bel := 11; BelPin_pin := id_D_IN_0 |} ]
                   [ {| BelPin_bel := 22; BelPin_pin := id_PLLOUT_B |} ]
                   {| BelPin_bel := 22; BelPin_pin := id_PLLOUT_A |} _) _).
  - repeat constructor.
  - reflexivity.
Defined.

Lemma pll_scan_no_input (this : Arch) (cell : CellInfo) (bel : BelId)
    (pins : list BelPin) :
  reads_pad cell = false -> pll_scan this cell bel pins = None.
Proof.
  intros Hr. induction pins as [|pin pins IH]; [reflexivity|].
  destruct (is_pllout pin) eqn:Hp.
  - rewrite pll_scan_output, Hr by assumption. cbn [negb].
    destruct (getBoundBelCell this (BelPin_bel pin)) as [pll_cell|];
      [|reflexivity].
    destruct (String.eqb (BelPin_pin pin) id_PLLOUT_B
              && negb (is_sb_pll40_dual this pll_cell)); reflexivity.
  - change (pin :: pins) with ([pin] ++ pins).
    rewrite (pll_scan_skip this cell bel [pin] pins); [exact IH|].
    constructor; [exact Hp | constructor].
Qed.

(** X9: an IO cell with no net on [D_IN_0] and [D_IN_1] is never
    affected by a PLL: whatever the pins on the wire and the cells bound
    to them, [isValidBelForCell] returns the verdict of the pairing
    rules and of the package pin. *)
Theorem output_only_io (this : Arch) (cell : CellInfo) (bel : BelId) :
  type cell = id_SB_IO ->
  port_net cell id_D_IN_0 = nullptr ->
  port_net cell id_D_IN_1 = nullptr ->
  pll_decision this cell bel = None
  /\ isValidBelForCell this cell bel
     = Ret (negb (io_pair_rejects this cell bel) && has_package_pin this bel).
Proof.
  intros Hty H0 H1.
  assert (Hr : reads_pad cell = false).
  { unfold reads_pad. rewrite H0, H1. reflexivity. }
  assert (Hpll : pll_decision this cell bel = None)
    by (apply pll_scan_no_input; exact Hr).
  split; [exact Hpll|].
  rewrite isValidBelForCell_io, Hpll by assumption.
  unfold io_pair_check, has_package_pin.
  destruct (io_pair_rejects this cell bel); reflexivity.
Qed.

Lemma output_only_io_witness :
  isValidBelForCell (sample_arch (pll_on_io1 unbound)) plain_io_cell 11
  = Ret true.
Proof.
  refine (proj2 (output_only_io (sample_arch (pll_on_io1 unbound))
                   plain_io_cell 11 _ _ _)); reflexivity.
Defined.

(** X10: for an IO cell with a net on [D_IN_0] or [D_IN_1] and a wire
    whose first PLL output pin belongs to a site bound to a PLL, when
    that pin is output A or the PLL is a dual-output one,
    [isValidBelForCell] returns whether the [BEL_PAD_INPUT] attribute
    of the PLL is the name of the bel, whatever the LVDS pairing, the
    shared nets and the package pin; a missing attribute reads as the
    empty string. *)
Theorem pll_conflict (this : Arch) (cell pll_cell : CellInfo) (bel : BelId)
    (pre post : list BelPin) (pin : BelPin) :
  type cell = id_SB_IO ->
  reads_pad cell = true ->
  getWireBelPins this (getBelPinWire this bel id_D_IN_0) = pre ++ pin :: post ->
  Forall (fun p => is_pllout p = false) pre ->
  is_pllout pin = true ->
  getBoundBelCell this (BelPin_bel pin) = Some pll_cell ->
  BelPin_pin pin = id_PLLOUT_A \/ is_sb_pll40_dual this pll_cell = true ->
  isValidBelForCell this cell bel
  = Ret (String.eqb
           (match attrs pll_cell !! "BEL_PAD_INPUT"%string with
            | Some v => v
            | None => EmptyString
            end)
           (getBelName this bel)).
Proof.
  intros Hty Hr Hpins Hpre Hp Hb Hused.
  rewrite isValidBelForCell_io by assumption.
  unfold pll_decision.
  rewrite Hpins, pll_scan_skip, pll_scan_output, Hb, Hr by assumption.
  assert (Hskip : String.eqb (BelPin_pin pin) id_PLLOUT_B
                  && negb (is_sb_pll40_dual this pll_cell) = false).
  { destruct Hused as [-> | ->]; [reflexivity|]. apply andb_false_r. }
  rewrite Hskip. reflexivity.
Qed.

Lemma pll_conflict_witness :
  isValidBelForCell
    (sample_arch (bind 22 (pll_cell_for "X0/Y1/io0") unbound))
    lvds_input_cell 11
  = Ret false.
Proof.
  refine (pll_conflict
            (sample_arch (bind 22 (pll_cell_for "X0/Y1/io0") unbound))
            lvds_input_cell (pll_cell_for "X0/Y1/io0") 11
            [ {| BelPin_bel := 11; BelPin_pin := id_D_IN_0 |} ] []
            {| BelPin_bel := 22; BelPin_pin := id_PLLOUT_A |} _ _ _ _ _ _ _).
  - reflexivity.
  - reflexivity.
  - reflexivity.
  - repeat constructor.
  - reflexivity.
  - reflexivity.
  - left. reflexivity.
Defined.

(** ** Errors of the global buffer branch *)

(** X11: for a global buffer cell, [forPadIn] accepts without reading
    the ports; otherwise a cell without a [GLOBAL_BUFFER_OUTPUT] port
    leaves through the out-of-range exception of [ports.at], and a port
    without net through the assertion. *)
Theorem gb_port_errors (this : Arch) (cell : CellInfo) (bel : BelId) :
  type cell = id_SB_GB ->
  (forPadIn (gbInfo cell) = true -> isValidBelForCell this cell bel = Ret true)
  /\ (forPadIn (gbInfo cell) = false ->
      ports cell !! id_GLOBAL_BUFFER_OUTPUT = None ->
      isValidBelForCell this cell bel = OutOfRange)
  /\ (forPadIn (gbInfo cell) = false ->
      ports cell !! id_GLOBAL_BUFFER_OUTPUT = Some {| net := nullptr |} ->
      isValidBelForCell this cell bel = AssertFail).
Proof.
  intros Hty. unfold isValidBelForCell, gb_check, port_net_at. rewrite Hty.
  cbn [String.eqb]. change (String.eqb id_SB_GB id_ICESTORM_LC) with false.
  change (String.eqb id_SB_GB id_SB_IO) with false.
  change (String.eqb id_SB_GB id_SB_GB) with true. cbv iota.
  repeat split.
  - intros ->. reflexivity.
  - intros -> ->. reflexivity.
  - intros -> ->. reflexivity.
Qed.

Lemma gb_port_errors_witness :
  isValidBelForCell (sample_arch unbound) bare_gb_cell 20 = OutOfRange
  /\ isValidBelForCell (sample_arch unbound) (gb_cell false nullptr) 20
     = AssertFail
  /\ isValidBelForCell (sample_arch unbound) (gb_cell true nullptr) 20
     = Ret true.
Proof.
  split; [|split].
  - refine (proj1 (proj2 (gb_port_errors (sample_arch unbound) bare_gb_cell 20 _))
              _ _); reflexivity.
  - refine (proj2 (proj2 (gb_port_errors (sample_arch unbound)
                            (gb_cell false nullptr) 20 _)) _ _); reflexivity.
  - refine (proj1 (gb_port_errors (sample_arch unbound)
                     (gb_cell true nullptr) 20 _) _); reflexivity.
Defined.

(** ** Paired IO sites *)

Lemma io_pair_check_bound (this : Arch) (cell compCell : CellInfo) (bel : BelId) :
  getBoundBelCell this (paired_site this bel) = Some compCell ->
  io_pair_check this cell bel
  = negb (lvds (ioInfo cell)) && negb (lvds (ioInfo compCell))
    && negb (pair_conflict cell compCell) && has_package_pin this bel.
Proof.
  intros Hcomp. unfold io_pair_check, io_pair_rejects.
  fold (paired_site this bel). rewrite Hcomp, io_conflict_classes.
  unfold has_package_pin.
  destruct (lvds (ioInfo cell)).
  - destruct (negb (z (getBelLocation this bel) =? 0)); reflexivity.
  - destruct (lvds (ioInfo compCell)); [reflexivity|].
    destruct (pair_conflict cell compCell); reflexivity.
Qed.

Lemma io_pair_check_free (this : Arch) (cell : CellInfo) (bel : BelId) :
  getBoundBelCell this (paired_site this bel) = None ->
  io_pair_check this cell bel
  = negb (lvds (ioInfo cell) && negb (z (getBelLocation this bel) =? 0))
    && has_package_pin this bel.
Proof.
  intros Hcomp. unfold io_pair_check, io_pair_rejects.
  fold (paired_site this bel). rewrite Hcomp. unfold has_package_pin.
  destruct (lvds (ioInfo cell)); [|reflexivity].
  destruct (negb (z (getBelLocation this bel) =? 0)); reflexivity.
Qed.

(** X12: when the pin scan does not decide, a non-LVDS IO cell is
    rejected on a site whose paired site holds an LVDS cell, and on a
    site whose paired site is free it is accepted exactly when the bel
    has a package pin. *)
Theorem non_lvds_placement (this : Arch) (cell : CellInfo) (bel : BelId) :
  type cell = id_SB_IO ->
  lvds (ioInfo cell) = false ->
  pll_decision this cell bel = None ->
  (forall compCell,
     getBoundBelCell this (paired_site this bel) = Some compCell ->
     lvds (ioInfo compCell) = true ->
     isValidBelForCell this cell bel = Ret false)
  /\ (getBoundBelCell this (paired_site this bel) = None ->
      isValidBelForCell this cell bel = Ret (has_package_pin this bel)).
Proof.
  intros Hty Hlv Hpll. rewrite isValidBelForCell_io, Hpll by assumption.
  split.
  - intros compCell Hcomp Hclv.
    rewrite (io_pair_check_bound _ _ _ _ Hcomp), Hlv, Hclv. reflexivity.
  - intros Hcomp. rewrite (io_pair_check_free _ _ _ Hcomp), Hlv. reflexivity.
Qed.

Lemma non_lvds_placement_witness :
  isValidBelForCell (sample_arch (bind 10 lvds_cell unbound)) plain_io_cell 11
  = Ret false
  /\ isValidBelForCell (sample_arch unbound) plain_io_cell 12 = Ret false
  /\ isValidBelForCell (sample_arch unbound) plain_io_cell 11 = Ret true.
Proof.
  split; [|split].
  - refine (proj1 (non_lvds_placement (sample_arch (bind 10 lvds_cell unbound))
                     plain_io_cell 11 _ _ _) lvds_cell _ _); reflexivity.
  - refine (proj2 (non_lvds_placement (sample_arch unbound)
                     plain_io_cell 12 _ _ _) _); reflexivity.
  - refine (proj2 (non_lvds_placement (sample_arch unbound)
                     plain_io_cell 11 _ _ _) _); reflexivity.
Defined.

Lemma class_conflict_sym (cell compCell : CellInfo) :
  pair_conflict cell compCell = pair_conflict compCell cell.
Proof.
  unfold pair_conflict, io_classes. cbn [existsb].
  rewrite !orb_false_r.
  rewrite (orb_comm (class_conflict _ cell compCell)
             (class_conflict (_io_pintype_need_clk_in, id_INPUT_CLK) compCell cell)).
  rewrite (orb_comm (class_conflict _ cell compCell)
             (class_conflict (_io_pintype_need_clk_out, id_OUTPUT_CLK) compCell cell)).
  rewrite (orb_comm (class_conflict _ cell compCell)
             (class_conflict (_io_pintype_need_clk_en, id_CLOCK_ENABLE) compCell cell)).
  reflexivity.
Qed.

(** X13: the verdicts of two paired IO sites agree: when both sites are
    bound to IO cells, each is the paired site of the other, the pin
    scan decides for neither and both have, or both lack, a package pin,
    [isBelLocationValid] returns the same on the two sites: the
    shared-net test is symmetric in the two cells and an LVDS cell on
    either site rejects both. *)
Theorem paired_sites_agree (this : Arch) (bel : BelId) (c c' : CellInfo) :
  getBelType this bel <> id_ICESTORM_LC ->
  getBelType this (paired_site this bel) <> id_ICESTORM_LC ->
  paired_site this (paired_site this bel) = bel ->
  getBoundBelCell this bel = Some c ->
  getBoundBelCell this (paired_site this bel) = Some c' ->
  type c = id_SB_IO -> type c' = id_SB_IO ->
  pll_decision this c bel = None ->
  pll_decision this c' (paired_site this bel) = None ->
  has_package_pin this bel = has_package_pin this (paired_site this bel) ->
  isBelLocationValid this bel
  = isBelLocationValid this (paired_site this bel)
  /\ isBelLocationValid this bel
     = Ret (negb (lvds (ioInfo c)) && negb (lvds (ioInfo c'))
            && negb (pair_conflict c c') && has_package_pin this bel).
Proof.
  intros Hty Hty' Hinv Hb Hb' Hc Hc' Hpll Hpll' Hpin.
  apply String.eqb_neq in Hty, Hty'.
  unfold isBelLocationValid. rewrite Hty, Hty', Hb, Hb'.
  rewrite !isValidBelForCell_io, Hpll, Hpll' by assumption.
  rewrite (io_pair_check_bound this c c' bel Hb').
  rewrite (io_pair_check_bound this c' c (paired_site this bel))
    by (rewrite Hinv; exact Hb).
  rewrite (class_conflict_sym c' c), <- Hpin.
  split; [|reflexivity]. f_equal.
  destruct (lvds (ioInfo c)), (lvds (ioInfo c')); reflexivity.
Qed.

Lemma paired_sites_agree_witness :
  isBelLocationValid
    (sample_arch (bind 10 (out_clk_cell 1%N) (bind 11 (out_clk_cell 2%N) unbound)))
    10
  = isBelLocationValid
      (sample_arch (bind 10 (out_clk_cell 1%N) (bind 11 (out_clk_cell 2%N) unbound)))
      11.
Proof.
  refine (proj1 (paired_sites_agree
                   (sample_arch (bind 10 (out_clk_cell 1%N)
                                   (bind 11 (out_clk_cell 2%N) unbound)))
                   10 (out_clk_cell 1%N) (out_clk_cell 2%N)
                   _ _ _ _ _ _ _ _ _ _));
    try reflexivity; cbn; discriminate.
Defined.

(** X14: when the pin scan does not decide, no IO cell is accepted on a
    bel without package pin, whatever its pin type, its nets and the
    paired site. *)
Theorem package_pin_required (this : Arch) (cell : CellInfo) (bel : BelId) :
  type cell = id_SB_IO ->
  pll_decision this cell bel = None ->
  getBelPackagePin this bel = EmptyString ->
  isValidBelForCell this cell bel = Ret false.
Proof.
  intros Hty Hpll Hpin. rewrite isValidBelForCell_io, Hpll by assumption.
  unfold io_pair_check. rewrite Hpin.
  destruct (io_pair_rejects this cell bel); reflexivity.
Qed.

Lemma package_pin_required_witness :
  isValidBelForCell (sample_arch unbound) (out_clk_cell 1%N) 13 = Ret false.
Proof.
  apply package_pin_required; reflexivity.
Defined.

Lemma class_conflict_same_net (k : (Z -> bool) * IdString) (a b : CellInfo) :
  port_net a (snd k) = port_net b (snd k) -> class_conflict k a b = false.
Proof.
  intros H. unfold class_conflict. rewrite H, net_eqb_refl.
  apply andb_false_iff. left. apply andb_false_r.
Qed.

Lemma class_conflict_no_need (k : (Z -> bool) * IdString) (a b : CellInfo) :
  fst k (pintype (ioInfo a)) = false -> class_conflict k a b = false.
Proof. intros H. unfold class_conflict. rewrite H. reflexivity. Qed.

(** X15: two paired non-LVDS IO cells never conflict on their shared
    nets when they hold the same net in each of the three slots, nor
    when neither needs an input clock or an output clock, whatever nets
    they hold: when the pin scan does not decide, the cell is then
    accepted exactly when the bel has a package pin. *)
Theorem no_shared_net_conflict (this : Arch) (cell compCell : CellInfo)
    (bel : BelId) :
  type cell = id_SB_IO ->
  lvds (ioInfo cell) = false ->
  pll_decision this cell bel = None ->
  getBoundBelCell this (paired_site this bel) = Some compCell ->
  lvds (ioInfo compCell) = false ->
  (port_net cell id_INPUT_CLK = port_net compCell id_INPUT_CLK
   /\ port_net cell id_OUTPUT_CLK = port_net compCell id_OUTPUT_CLK
   /\ port_net cell id_CLOCK_ENABLE = port_net compCell id_CLOCK_ENABLE)
  \/ (_io_pintype_need_clk_in (pintype (ioInfo cell)) = false
      /\ _io_pintype_need_clk_out (pintype (ioInfo cell)) = false
      /\ _io_pintype_need_clk_in (pintype (ioInfo compCell)) = false
      /\ _io_pintype_need_clk_out (pintype (ioInfo compCell)) = false) ->
  isValidBelForCell this cell bel = Ret (has_package_pin this bel).
Proof.
  intros Hty Hlv Hpll Hcomp Hclv Hcase.
  rewrite isValidBelForCell_io, Hpll by assumption.
  rewrite (io_pair_check_bound _ _ _ _ Hcomp), Hlv, Hclv.
  assert (Hno : pair_conflict cell compCell = false).
  { unfold pair_conflict, io_classes. cbn [existsb].
    destruct Hcase as [(Hi & Ho & He) | (Hi & Ho & Hi' & Ho')].
    - rewrite !class_conflict_same_net by (cbn [snd]; congruence).
      reflexivity.
    - rewrite !class_conflict_no_need
        by (cbn [fst]; unfold _io_pintype_need_clk_en;
            rewrite ?Hi, ?Ho, ?Hi', ?Ho'; reflexivity).
      reflexivity. }
  rewrite Hno. reflexivity.
Qed.

Lemma no_shared_net_conflict_witness :
  isValidBelForCell
    (sample_arch (bind 11 (out_clk_cell 1%N) unbound)) (out_clk_cell 1%N) 10
  = Ret true
  /\ isValidBelForCell
       (sample_arch
          (bind 11 (io_cell no_io {[ id_INPUT_CLK := {| net := Some 2%N |} ]})
             unbound))
       (io_cell no_io {[ id_INPUT_CLK := {| net := Some 1%N |} ]}) 10
     = Ret true.
Proof.
  split.
  - refine (no_shared_net_conflict _ (out_clk_cell 1%N) (out_clk_cell 1%N) 10
              _ _ _ _ _ _); try reflexivity.
    left. repeat split.
  - refine (no_shared_net_conflict _
              (io_cell no_io {[ id_INPUT_CLK := {| net := Some 1%N |} ]})
              (io_cell no_io {[ id_INPUT_CLK := {| net := Some 2%N |} ]}) 10
              _ _ _ _ _ _); try reflexivity.
    right. repeat split.
Defined.

(** ** Logic sites of one tile *)

(** X16: the validity of a logic site is a property of its tile: two
    logic sites with the same tile coordinates get the same verdict
    from [isBelLocationValid], whether or not they are bound. *)
Theorem logic_validity_per_tile (this : Arch) (bel bel' : BelId) :
  getBelType this bel = id_ICESTORM_LC ->
  getBelType this bel' = id_ICESTORM_LC ->
  x (getBelLocation this bel) = x (getBelLocation this bel') ->
  y (getBelLocation this bel) = y (getBelLocation this bel') ->
  isBelLocationValid this bel = isBelLocationValid this bel'.
Proof.
  intros Hty Hty' Hx Hy. unfold isBelLocationValid.
  rewrite Hty, Hty', Hx, Hy. reflexivity.
Qed.

Lemma logic_validity_per_tile_witness :
  isBelLocationValid
    (sample_arch (bind 1 (dff_cell 1 nullptr (Some 1%N) nullptr false)
                    (bind 2 (dff_cell 1 nullptr (Some 2%N) nullptr false) unbound)))
    0
  = isBelLocationValid
      (sample_arch (bind 1 (dff_cell 1 nullptr (Some 1%N) nullptr false)
                      (bind 2 (dff_cell 1 nullptr (Some 2%N) nullptr false) unbound)))
      2.
Proof.
  apply logic_validity_per_tile; reflexivity.
Defined.

(** ** The bits of the pin type *)

Lemma low6_land63 (p : Z) : low6 (Z.land p 0x3f) = low6 p.
Proof.
  unfold low6. rewrite !Z.land_spec.
  change (Z.testbit 63 0) with true. change (Z.testbit 63 1) with true.
  change (Z.testbit 63 2) with true. change (Z.testbit 63 3) with true.
  change (Z.testbit 63 4) with true. change (Z.testbit 63 5) with true.
  rewrite !andb_true_r. reflexivity.
Qed.

(** X17: the three classifiers read the six low bits of the pin type
    only: masking the pin type with [0x3f] changes none of them. *)
Theorem pintype_six_bits (p : Z) :
  _io_pintype_need_clk_in (Z.land p 0x3f) = _io_pintype_need_clk_in p
  /\ _io_pintype_need_clk_out (Z.land p 0x3f) = _io_pintype_need_clk_out p
  /\ _io_pintype_need_clk_en (Z.land p 0x3f) = _io_pintype_need_clk_en p.
Proof.
  assert (Hin : _io_pintype_need_clk_in (Z.land p 0x3f)
                = _io_pintype_need_clk_in p).
  { unfold _io_pintype_need_clk_in.
    rewrite (land_low6 (Z.land p 63) 1), (land_low6 p 1), low6_land63 by lia.
    reflexivity. }
  assert (Hout : _io_pintype_need_clk_out (Z.land p 0x3f)
                 = _io_pintype_need_clk_out p).
  { unfold _io_pintype_need_clk_out.
    rewrite (land_low6 (Z.land p 63) 48), (land_low6 p 48),
      (land_low6 (Z.land p 63) 60), (land_low6 p 60),
      (land_low6 (Z.land p 63) 12), (land_low6 p 12), low6_land63 by lia.
    reflexivity. }
  repeat split; try assumption.
  unfold _io_pintype_need_clk_en. rewrite Hin, Hout. reflexivity.
Qed.

(** ** Cells without flip-flop *)

(** X18: for logic cells none of which uses a DFF, the tile check
    accepts exactly when the input counts sum to at most 32; the nets in
    their control slots and their [negClk] flags are not looked at, even
    when they differ from cell to cell. *)
Theorem dff_free_cells (this : Arch) (cells : list CellInfo) :
  Forall (fun c => is_lc c = true) cells ->
  (forall d, In d cells -> dffEnable (lcInfo d) = false) ->
  int_range (input_sum cells) ->
  logicCellsCompatible this cells = Ret (input_sum cells <=? 32).
Proof.
  intros Hlc Hno Hr.
  rewrite logicCellsCompatible_closed by assumption.
  unfold dffs_agree. rewrite tile_budget_no_dff by exact Hno.
  rewrite (proj2 (first_dff_none cells) Hno), int_wrap_id by assumption.
  reflexivity.
Qed.

Lemma dff_free_cells_witness :
  logicCellsCompatible (sample_arch unbound)
    [logic_cell {| dffEnable := false; negClk := false; inputCount := 16;
                   clk := Some 1%N; cen := nullptr; sr := nullptr |};
     logic_cell {| dffEnable := false; negClk := true; inputCount := 16;
                   clk := Some 2%N; cen := Some 1%N; sr := nullptr |}]
  = Ret true.
Proof.
  refine (dff_free_cells (sample_arch unbound) _ _ _ _).
  - repeat constructor.
  - intros d [<-|[<-|[]]]; reflexivity.
  - vm_compute. split; [discriminate|reflexivity].
Defined.
